(** * HostsTableModel: the host table of the legacy LEGION2 user interface

    A shallow embedding of [legacy-components/ui/models/hostmodels.py]
    (class [HostsTableModel]) and the properties of its field access,
    cell rendering, lookups and sorting.

    Conventions of the embedding.
    - Python values that occur as record fields are the flat universe
      [pyval]: [None], booleans, integers and strings.  A Python [str] is
      modelled by a Rocq [string] read as a sequence of code points below
      256; on that range case-insensitive matching of the ASCII patterns
      of the source is ASCII case folding.
    - A host record is a [dict] keyed by field name, a [tuple], or a [list]
      (the constructor's default table is [[[]]], one empty list).
    - A Python exception is the [Raise] case of [result]; code that changes
      the model or emits a signal runs in the monad [M], in which the state
      reached before a raise is kept, as in Python. *)

From Stdlib Require Import ZArith String Ascii List Bool Lia.
From Stdlib Require Import Sorting.Permutation Sorting.Sorted.
From stdpp Require Import base option list sorting gmap strings pretty.

Local Open Scope Z_scope.

(** ** Python values *)

Inductive pyval : Type :=
| VNone
| VBool (b : bool)
| VInt (n : Z)
| VStr (s : string).

Inductive exn : Type :=
| IndexError
| TypeError
| ValueError
| AttributeError.

Inductive result (A : Type) : Type :=
| Ok (a : A)
| Raise (e : exn).
Arguments Ok {A} a.
Arguments Raise {A} e.

Instance result_ret : MRet result := fun _ a => Ok a.

Instance result_bind : MBind result := fun _ _ k r =>
  match r with
  | Ok a => k a
  | Raise e => Raise e
  end.

Instance pyval_eq_dec : EqDecision pyval.
Proof. solve_decision. Defined.

Instance exn_eq_dec : EqDecision exn.
Proof. solve_decision. Defined.

(** The integer a [bool] stands for in a numeric comparison
    ([True == 1], [False == 0]). *)
Definition as_number (v : pyval) : option Z :=
  match v with
  | VBool b => Some (if b then 1 else 0)
  | VInt n => Some n
  | _ => None
  end.

(** [a == b] *)
Definition py_eq (a b : pyval) : bool :=
  match a, b with
  | VNone, VNone => true
  | VStr s, VStr t => String.eqb s t
  | _, _ =>
      match as_number a, as_number b with
      | Some m, Some n => m =? n
      | _, _ => false
      end
  end.

(** [a < b]: defined between numbers and between strings (code point
    order); every other pair raises [TypeError]. *)
Definition py_lt (a b : pyval) : result bool :=
  match a, b with
  | VStr s, VStr t => Ok (String.ltb s t)
  | _, _ =>
      match as_number a, as_number b with
      | Some m, Some n => Ok (m <? n)
      | _, _ => Raise TypeError
      end
  end.

(** [bool(v)] *)
Definition truthy (v : pyval) : bool :=
  match v with
  | VNone => false
  | VBool b => b
  | VInt n => negb (n =? 0)
  | VStr s => negb (String.eqb s "")
  end.

(** [str(v)] *)
Definition py_str (v : pyval) : string :=
  match v with
  | VNone => "None"
  | VBool true => "True"
  | VBool false => "False"
  | VInt n => pretty n
  | VStr s => s
  end.

(** [a + b] as the display code uses it: string concatenation. *)
Definition py_add (a b : pyval) : result pyval :=
  match a, b with
  | VStr s, VStr t => Ok (VStr (s +:+ t))
  | _, _ =>
      match as_number a, as_number b with
      | Some m, Some n => Ok (VInt (m + n))
      | _, _ => Raise TypeError
      end
  end.

(** [t[i]] for a literal index [i >= 0] on a tuple or list. *)
Definition py_index (t : list pyval) (i : nat) : result pyval :=
  match t !! i with
  | Some v => Ok v
  | None => Raise IndexError
  end.

(** ** Host records and the table *)

Inductive host : Type :=
| HDict (d : gmap string pyval)
| HTuple (t : list pyval)
| HList (l : list pyval).

(** [getSafeHostField]: the bounds test comes first; a [dict] is read with
    [dict.get], a [tuple] by position for ['ip'] and ['id'] only, and
    anything else yields [None]. *)
Definition getSafeHostField (_hosts : list host) (row : Z) (key_or_index : string)
  : result pyval :=
  if (row <? 0) || (row >=? Z.of_nat (length _hosts)) then Ok VNone
  else
    match _hosts !! Z.to_nat row with
    | None => Raise IndexError
    | Some (HDict d) => Ok (default VNone (d !! key_or_index))
    | Some (HTuple t) =>
        if String.eqb key_or_index "ip" then py_index t 0
        else if String.eqb key_or_index "id" then py_index t 1
        else Ok VNone
    | Some (HList _) => Ok VNone
    end.

Definition rowCount (_hosts : list host) : Z := Z.of_nat (length _hosts).

Definition host_len (h : host) : Z :=
  match h with
  | HDict d => Z.of_nat (size d)
  | HTuple t => Z.of_nat (length t)
  | HList l => Z.of_nat (length l)
  end.

Definition columnCount (_hosts : list host) : Z :=
  match _hosts with
  | h :: _ => host_len h
  | [] => 0
  end.

(** ** The fragment of [re] the model uses

    The patterns of the source are sequences of literal characters and
    bracketed character sets, searched with the flag [re.I]. *)

Inductive atom : Type :=
| Lit (c : ascii)
| Class (cs : list ascii).

(** Reads a pattern: [None] outside brackets, [Some cs] inside a set whose
    members read so far are [cs] (last one first). *)
Fixpoint re_parse (open : option (list ascii)) (p : string) : list atom :=
  match p with
  | EmptyString => []
  | String c p' =>
      match open with
      | None =>
          if Ascii.eqb c "["%char then re_parse (Some []) p'
          else Lit c :: re_parse None p'
      | Some cs =>
          if Ascii.eqb c "]"%char then Class (rev cs) :: re_parse None p'
          else re_parse (Some (c :: cs)) p'
      end
  end.

Definition re_compile (pattern : string) : list atom := re_parse None pattern.

Definition to_lower (c : ascii) : ascii :=
  let n := nat_of_ascii c in
  if (65 <=? n)%nat && (n <=? 90)%nat then ascii_of_nat (n + 32) else c.

Definition char_eq (ignorecase : bool) (a b : ascii) : bool :=
  if ignorecase then Ascii.eqb (to_lower a) (to_lower b) else Ascii.eqb a b.

Definition atom_matches (ignorecase : bool) (a : atom) (c : ascii) : bool :=
  match a with
  | Lit x => char_eq ignorecase x c
  | Class xs => existsb (fun x => char_eq ignorecase x c) xs
  end.

(** [re.match]: the atoms match a prefix of [s]. *)
Fixpoint re_match (ignorecase : bool) (re : list atom) (s : string) : bool :=
  match re with
  | [] => true
  | a :: re' =>
      match s with
      | EmptyString => false
      | String c s' => atom_matches ignorecase a c && re_match ignorecase re' s'
      end
  end.

Fixpoint re_scan (ignorecase : bool) (re : list atom) (s : string) : bool :=
  re_match ignorecase re s ||
  match s with
  | EmptyString => false
  | String _ s' => re_scan ignorecase re s'
  end.

(** The flag [re.I]. *)
Definition re_I : bool := true.

(** [re.search(pattern, string, flags)] in a boolean context: whether a
    match object is returned.  A subject that is not a string raises
    [TypeError]. *)
Definition re_search (pattern : string) (subject : pyval) (flags : bool)
  : result bool :=
  match subject with
  | VStr s => Ok (re_scan flags (re_compile pattern) s)
  | _ => Raise TypeError
  end.

(** ** Cells: what [data] returns *)

Inductive ItemDataRole : Type :=
| DisplayRole
| DecorationRole
| EditRole
| ToolTipRole
| StatusTipRole
| FontRole
| UserRole.

Record QModelIndex : Type := mkIndex { row : Z; column : Z }.

Record QFont : Type := mkFont { strikeOut : bool; italic : bool }.

Inductive cell : Type :=
| CValue (v : pyval)
| CIcon (fileName : string)
| CFont (f : QFont).

(** The implicit [return None] at the end of a Python function. *)
Definition CNone : cell := CValue VNone.

Instance QFont_eq_dec : EqDecision QFont.
Proof. solve_decision. Defined.

Instance cell_eq_dec : EqDecision cell.
Proof. solve_decision. Defined.

Definition QIcon (fileName : string) : cell := CIcon fileName.

(** [ip if ip is not None else ''] *)
Definition or_empty (v : pyval) : pyval :=
  match v with
  | VNone => VStr ""
  | _ => v
  end.

Definition decoration (_hosts : list host) (index : QModelIndex) : result cell :=
  if column index =? 1 then
    os_string ← getSafeHostField _hosts (row index) "osMatch";
    if negb (truthy os_string) then Ok (QIcon "./images/question-icon.png")
    else
      m ← re_search "[lL]inux" os_string re_I;
      if m : bool then Ok (QIcon "./images/linux-icon.png") else
      m ← re_search "[wW]indows" os_string re_I;
      if m : bool then Ok (QIcon "./images/windows-icon.png") else
      m ← re_search "[cC]isco" os_string re_I;
      if m : bool then Ok (QIcon "./images/cisco-big.jpg") else
      m ← re_search "HP " os_string re_I;
      if m : bool then Ok (QIcon "./images/hp-icon.png") else
      m ← re_search "[vV]x[wW]orks" os_string re_I;
      if m : bool then Ok (QIcon "./images/hp-icon.png") else
      m ← re_search "[vV]m[wW]are" os_string re_I;
      if m : bool then Ok (QIcon "./images/vmware-big.jpg")
      else Ok (QIcon "./images/question-icon.png")
  else Ok CNone.

Definition display (_hosts : list host) (index : QModelIndex) : result pyval :=
  let field := getSafeHostField _hosts (row index) in
  let column := column index in
  if column =? 0 then field "id"
  else if column =? 2 then field "osAccuracy"
  else if column =? 3 then
    hostname ← field "hostname";
    ip ← field "ip";
    let ip := or_empty ip in
    let hostname := or_empty hostname in
    if negb (py_eq hostname (VStr "")) then
      a ← py_add ip (VStr " (");
      b ← py_add a hostname;
      py_add b (VStr ")")
    else Ok ip
  else if column =? 4 then field "ipv4"
  else if column =? 5 then field "ipv6"
  else if column =? 6 then field "macaddr"
  else if column =? 7 then field "status"
  else if column =? 8 then field "hostname"
  else if column =? 9 then field "vendor"
  else if column =? 10 then field "uptime"
  else if column =? 11 then field "lastboot"
  else if column =? 12 then field "distance"
  else if column =? 13 then field "checked"
  else if column =? 14 then field "state"
  else if column =? 15 then field "count"
  else Ok (VStr "Not set in view model").

Definition font (_hosts : list host) (index : QModelIndex) : result cell :=
  if column index =? 3 then
    checked ← getSafeHostField _hosts (row index) "checked";
    if py_eq checked (VStr "True")
    then Ok (CFont {| strikeOut := true; italic := true |})
    else Ok CNone
  else Ok CNone.

(** [data]: the three [if role == ...] blocks in source order.  The
    decoration block returns only for column 1 and otherwise falls through
    to the end of the function, as does every role without a block. *)
Definition data (_hosts : list host) (index : QModelIndex) (role : ItemDataRole)
  : result cell :=
  match role with
  | DecorationRole => decoration _hosts index
  | DisplayRole => v ← display _hosts index; Ok (CValue v)
  | FontRole => font _hosts index
  | _ => Ok CNone
  end.

(** ** The model object: state, signals and the log

    [trace] records, in order, what the model does to its surroundings:
    every signal emission, together with the record sequence a connected
    slot reads from the model at that moment, and every [log.error] call
    of the sort key (the record and the exception it reports). *)

Inductive SortOrder : Type :=
| AscendingOrder
| DescendingOrder.

Inductive signal : Type :=
| layoutAboutToBeChanged
| layoutChanged.

Inductive event : Type :=
| Emitted (sg : signal) (seen : list host)
| LogError (h : host) (e : exn).

Record model : Type := mkModel { _hosts : list host; trace : list event }.

Definition M (A : Type) : Type := model -> result A * model.

Instance M_ret : MRet M := fun _ a s => (Ok a, s).

Instance M_bind : MBind M := fun _ _ k m s =>
  match m s with
  | (Ok a, s') => k a s'
  | (Raise e, s') => (Raise e, s')
  end.

Definition lift {A : Type} (r : result A) : M A := fun s => (r, s).

Definition get_hosts : M (list host) := fun s => (Ok (_hosts s), s).

Definition set_hosts (hs : list host) : M unit :=
  fun s => (Ok tt, {| _hosts := hs; trace := trace s |}).

Definition setHosts (hosts : list host) : M unit := set_hosts hosts.

Definition emit (sg : signal) : M unit :=
  fun s => (Ok tt, {| _hosts := _hosts s;
                      trace := trace s ++ [Emitted sg (_hosts s)] |}).

Definition log_error (h : host) (e : exn) : M unit :=
  fun s => (Ok tt, {| _hosts := _hosts s; trace := trace s ++ [LogError h e] |}).

(** [[f(x) for x in l]] for an [f] that may log or raise. *)
Fixpoint for_each {A B : Type} (f : A -> M B) (l : list A) : M (list B) :=
  match l with
  | [] => mret []
  | x :: l' => y ← f x; ys ← for_each f l'; mret (y :: ys)
  end.

(** The same for an [f] without effect on the model. *)
Fixpoint collect {A B : Type} (f : A -> result B) (l : list A) : result (list B) :=
  match l with
  | [] => Ok []
  | x :: l' => y ← f x; ys ← collect f l'; Ok (y :: ys)
  end.

(** ** [list.sort(key=..., reverse=...)]

    The list is given with its keys already computed, as pairs
    [(key, item)].  Python's sort is stable and compares keys with [<]
    only; a reverse sort reverses the list, sorts it forward and reverses
    the result, which keeps equal keys in their original order.  The
    forward sort is written as an insertion sort: what a stable sort
    returns does not depend on the algorithm ([stable_sort_unique] below),
    and a comparison of two keys that [<] does not relate raises
    [TypeError], which ends the sort. *)

Section list_sort.
Context {A : Type}.

Fixpoint sort_insert (x : pyval * A) (l : list (pyval * A))
  : result (list (pyval * A)) :=
  match l with
  | [] => Ok [x]
  | y :: l' =>
      b ← py_lt (fst y) (fst x);
      if b : bool then r ← sort_insert x l'; Ok (y :: r)
      else Ok (x :: y :: l')
  end.

Fixpoint sort_forward (l : list (pyval * A)) : result (list (pyval * A)) :=
  match l with
  | [] => Ok []
  | x :: l' => s ← sort_forward l'; sort_insert x s
  end.

Definition list_sort (l : list (pyval * A)) (reverse : bool)
  : result (list (pyval * A)) :=
  if reverse then r ← sort_forward (list.reverse l); Ok (list.reverse r)
  else sort_forward l.
End list_sort.

Definition is_descending (order : SortOrder) : bool :=
  match order with
  | DescendingOrder => true
  | AscendingOrder => false
  end.

(** [self._hosts.sort(key=key, reverse=reverse)]: the keys are computed
    first, one call per record in list order; if a call raises, the list
    is left as it was.  The one key function it is used with, [ip_key],
    returns integers, so that no comparison raises in the sort itself. *)
Definition hosts_sort (key : host -> M pyval) (reverse : bool) : M unit :=
  hs ← get_hosts;
  keys ← for_each key hs;
  sorted ← lift (list_sort (zip keys hs) reverse);
  set_hosts (sorted.*2).

(** [x or ''] *)
Definition or_else_empty (v : pyval) : pyval :=
  if truthy v then v else VStr "".

Definition sortByOS (order : SortOrder) : M unit :=
  hs ← get_hosts;
  array ← lift (collect
                  (fun i => v ← getSafeHostField hs (Z.of_nat i) "osMatch";
                            Ok (or_else_empty v))
                  (seq 0 (length hs)));
  let zipped := zip array hs in
  zipped ← lift (list_sort zipped (is_descending order));
  set_hosts (zipped.*2);;
  emit layoutChanged.

Section sort.
(** [IP2Int] is imported from [app.auxiliary]; the table model only calls
    it, so it is a parameter here.  It is given the value of the ['ip']
    field and returns an integer or [None], or raises. *)
Variable IP2Int : pyval -> result (option Z).

(** [host.get('ip') if isinstance(host, dict) else host[0]] *)
Definition ip_of (h : host) : result pyval :=
  match h with
  | HDict d => Ok (default VNone (d !! "ip"))
  | HTuple t => py_index t 0
  | HList l => py_index l 0
  end.

Definition ip_key (h : host) : M pyval :=
  ip ← lift (ip_of h);
  match IP2Int ip with
  | Ok result =>
      mret (match result with
            | None => VInt 0
            | Some n => VInt n
            end)
  | Raise e => log_error h e;; mret (VInt 0)
  end.

Definition sort (Ncol : Z) (order : SortOrder) : M unit :=
  emit layoutAboutToBeChanged;;
  if (Ncol =? 0) || (Ncol =? 3) then
    hosts_sort ip_key (is_descending order);;
    emit layoutChanged
  else if Ncol =? 1 then sortByOS order
  else emit layoutChanged.
End sort.

(** ** Lookups by address *)

(** [for i in range(n): ...] with a body that may return from the
    function: [Some v] is [return v], [None] goes on with the next [i]; the
    result is [None] when the loop ends. *)
Fixpoint for_range (body : nat -> result (option pyval)) (rows : list nat)
  : result (option pyval) :=
  match rows with
  | [] => Ok None
  | i :: rows' =>
      r ← body i;
      match r with
      | Some v => Ok (Some v)
      | None => for_range body rows'
      end
  end.

Definition getHostIPForRow (_hosts : list host) (row : Z) : result pyval :=
  getSafeHostField _hosts row "ip".

Definition getHostIdForRow (_hosts : list host) (row : Z) : result pyval :=
  getSafeHostField _hosts row "id".

Definition getHostCheckStatusForRow (_hosts : list host) (row : Z) : result pyval :=
  getSafeHostField _hosts row "checked".

(** Falls off the end of the function, so returns [None], when no row
    matches. *)
Definition getHostCheckStatusForIp (_hosts : list host) (ip : pyval) : result pyval :=
  r ← for_range
        (fun i =>
           v ← getSafeHostField _hosts (Z.of_nat i) "ip";
           if String.eqb (py_str v) (py_str ip)
           then c ← getSafeHostField _hosts (Z.of_nat i) "checked"; Ok (Some c)
           else Ok None)
        (seq 0 (length _hosts));
  Ok (default VNone r).

Definition getRowForIp (_hosts : list host) (ip : pyval) : result pyval :=
  r ← for_range
        (fun i =>
           v ← getSafeHostField _hosts (Z.of_nat i) "ip";
           if py_eq v ip then Ok (Some (VInt (Z.of_nat i))) else Ok None)
        (seq 0 (length _hosts));
  Ok (default VNone r).

(** ** Dotted-quad addresses *)

Definition digit_of (c : ascii) : option Z :=
  let n := nat_of_ascii c in
  if (48 <=? n)%nat && (n <=? 57)%nat then Some (Z.of_nat (n - 48)) else None.

Fixpoint parse_decimal (acc : Z) (s : string) : option Z :=
  match s with
  | EmptyString => Some acc
  | String c s' =>
      match digit_of c with
      | Some d => parse_decimal (10 * acc + d) s'
      | None => None
      end
  end.

(** A non-empty run of decimal digits whose value is at most 255. *)
Definition parse_octet (s : string) : option Z :=
  match s with
  | EmptyString => None
  | _ =>
      match parse_decimal 0 s with
      | Some n => if n <=? 255 then Some n else None
      | None => None
      end
  end.

(** [s.split(sep)] *)
Fixpoint split_on (sep : ascii) (s : string) : list string :=
  match s with
  | EmptyString => [EmptyString]
  | String c s' =>
      if Ascii.eqb c sep then EmptyString :: split_on sep s'
      else
        match split_on sep s' with
        | w :: ws => String c w :: ws
        | [] => [String c EmptyString]
        end
  end.

Definition dotted_quad (s : string) : option Z :=
  match parse_octet <$> split_on "."%char s with
  | [Some a; Some b; Some c; Some d] =>
      Some (16777216 * a + 65536 * b + 256 * c + d)
  | _ => None
  end.

(** Modelled from the spec: [IP2Int] of [app.auxiliary], which is not
    among the sources.  The spec describes it as parsing the address "as a
    dotted/quad address into a 32-bit-equivalent integer", and tells an
    absent address from one that fails to parse ("any parse error is
    logged"): an absent address yields [None], a string that is a dotted
    quad yields its value, and anything else is a parse error. *)
Definition IP2Int_dotted_quad (ip : pyval) : result (option Z) :=
  match ip with
  | VNone => Ok None
  | VStr s =>
      match dotted_quad s with
      | Some n => Ok (Some n)
      | None => Raise ValueError
      end
  | _ => Raise ValueError
  end.

(** ** The table as a shared list object

    [self._hosts] holds a reference to a list object: the constructor and
    [setHosts] store the list they are given, without copying it, so the
    caller's variable and the model refer to one list.  [pystate] has the
    list objects by address, the address [self._hosts] holds, and the
    trace.  The address sort, [self._hosts.sort(...)], changes the list
    object in place; the OS sort, [self._hosts = [...]], makes a new list
    and stores its address. *)

Record pystate : Type :=
  mkState { heap : gmap nat (list host); self_hosts : nat; emitted : list event }.

Definition table (s : pystate) : list host := default [] (heap s !! self_hosts s).

(** The model as the code of the class sees it. *)
Definition view (s : pystate) : model := {| _hosts := table s; trace := emitted s |}.

Definition Shared (A : Type) : Type := pystate -> result A * pystate.

Instance Shared_ret : MRet Shared := fun _ a s => (Ok a, s).

Instance Shared_bind : MBind Shared := fun _ _ k c s =>
  match c s with
  | (Ok a, s') => k a s'
  | (Raise e, s') => (Raise e, s')
  end.

(** Code that reads the table and emits or logs, without a write to
    [self._hosts]. *)
Definition reading {A : Type} (c : M A) : Shared A :=
  fun s =>
    let '(r, m') := c (view s) in
    (r, {| heap := heap s; self_hosts := self_hosts s; emitted := trace m' |}).

(** Code whose write goes to the list object [self._hosts] refers to. *)
Definition in_place {A : Type} (c : M A) : Shared A :=
  fun s =>
    let '(r, m') := c (view s) in
    (r, {| heap := <[self_hosts s := _hosts m']> (heap s);
           self_hosts := self_hosts s;
           emitted := trace m' |}).

(** Code whose write is an assignment of a new list to [self._hosts];
    nothing is assigned when the code raises before it. *)
Definition rebinding {A : Type} (c : M A) : Shared A :=
  fun s =>
    let '(r, m') := c (view s) in
    match r with
    | Ok _ =>
        let l := fresh (dom (heap s)) in
        (r, {| heap := <[l := _hosts m']> (heap s);
               self_hosts := l;
               emitted := trace m' |})
    | Raise _ =>
        (r, {| heap := heap s; self_hosts := self_hosts s; emitted := trace m' |})
    end.

(** [self._hosts = hosts], for the list object at [hosts]. *)
Definition setHosts_shared (hosts : nat) : Shared unit :=
  fun s => (Ok tt, {| heap := heap s; self_hosts := hosts; emitted := emitted s |}).

Definition sort_shared (IP2Int : pyval -> result (option Z)) (Ncol : Z)
    (order : SortOrder) : Shared unit :=
  reading (emit layoutAboutToBeChanged);;
  if (Ncol =? 0) || (Ncol =? 3) then
    in_place (hosts_sort (ip_key IP2Int) (is_descending order));;
    reading (emit layoutChanged)
  else if Ncol =? 1 then rebinding (sortByOS order)
  else reading (emit layoutChanged).

(** * Vocabulary of the statements *)

(** ** Field access *)

(** The record a row index designates, if it is within the table. *)
Definition host_at (hosts : list host) (r : Z) : option host :=
  if r <? 0 then None else hosts !! Z.to_nat r.

(** What [getSafeHostField] reads from one record. *)
Definition field_of (h : host) (key : string) : result pyval :=
  match h with
  | HDict d => Ok (default VNone (d !! key))
  | HTuple t =>
      if String.eqb key "ip" then py_index t 0
      else if String.eqb key "id" then py_index t 1
      else Ok VNone
  | HList _ => Ok VNone
  end.

(** Only a tuple with fewer than two elements makes field access raise. *)
Definition two_or_more (h : host) : Prop :=
  match h with
  | HTuple t => (2 <= length t)%nat
  | _ => True
  end.

(** ** Cells *)

(** The fields the display role reads for a column: one field for the
    columns of the column-to-field chain, two for the address column 3,
    none for column 1 and for the columns past 15, which the chain does not
    list. *)
Definition display_keys (c : Z) : list string :=
  if c =? 0 then ["id"]
  else if c =? 2 then ["osAccuracy"]
  else if c =? 3 then ["hostname"; "ip"]
  else if c =? 4 then ["ipv4"]
  else if c =? 5 then ["ipv6"]
  else if c =? 6 then ["macaddr"]
  else if c =? 7 then ["status"]
  else if c =? 8 then ["hostname"]
  else if c =? 9 then ["vendor"]
  else if c =? 10 then ["uptime"]
  else if c =? 11 then ["lastboot"]
  else if c =? 12 then ["distance"]
  else if c =? 13 then ["checked"]
  else if c =? 14 then ["state"]
  else if c =? 15 then ["count"]
  else [].

(** A field that holds text or is absent. *)
Definition text_of (o : option string) : pyval :=
  match o with
  | Some s => VStr s
  | None => VNone
  end.

(** The address cell as the spec words it: the ip, followed by the
    hostname in parentheses when there is a non-empty one. *)
Definition address_text (ip hostname : option string) : string :=
  match hostname with
  | None | Some EmptyString => default "" ip
  | Some h => default "" ip +:+ " (" +:+ h +:+ ")"
  end.

(** Whether the model strikes a row out: the font role sets a font on
    the address cell (column 3) of the row and on no other cell. *)
Definition strikeThroughIfChecked (hosts : list host) (r : Z) : bool :=
  match data hosts (mkIndex r 3) FontRole with
  | Ok (CFont f) => strikeOut f
  | _ => false
  end.

(** ** Classification by OS name *)

Fixpoint lower_string (s : string) : string :=
  match s with
  | EmptyString => EmptyString
  | String c s' => String (to_lower c) (lower_string s')
  end.

(** [w] occurs in [s] when letter case is ignored. *)
Definition contains_ci (w s : string) : Prop :=
  exists pre post, lower_string s = pre +:+ lower_string w +:+ post.

(** The icons the decoration role can answer with, one name per image
    file. *)
Inductive IconCategory : Type :=
| Unknown
| Linux
| Windows
| Cisco
| HP
| VMware.

Definition icon_file (c : IconCategory) : string :=
  match c with
  | Unknown => "./images/question-icon.png"
  | Linux => "./images/linux-icon.png"
  | Windows => "./images/windows-icon.png"
  | Cisco => "./images/cisco-big.jpg"
  | HP => "./images/hp-icon.png"
  | VMware => "./images/vmware-big.jpg"
  end.

(** The words looked for, in priority order, each with its icon. *)
Definition os_words : list (string * IconCategory) :=
  [("linux", Linux); ("windows", Windows); ("cisco", Cisco);
   ("HP ", HP); ("vxworks", HP); ("vmware", VMware)].

(** [c] is the icon of the first word of [table] that occurs in [os], and
    [Unknown] if none does. *)
Fixpoint first_match (table : list (string * IconCategory)) (os : string)
    (c : IconCategory) : Prop :=
  match table with
  | [] => c = Unknown
  | (w, i) :: table' =>
      (contains_ci w os /\ c = i) \/
      (~ contains_ci w os /\ first_match table' os c)
  end.

(** Two atom sequences the patterns of the source compile to stand for a
    word when each atom accepts, letter case ignored, exactly the
    corresponding character. *)
Definition atom_is (a : atom) (c : ascii) : Prop :=
  forall x, atom_matches true a x = Ascii.eqb (to_lower x) (to_lower c).

(** The atoms of [re] spell the word [w]. *)
Fixpoint spells (re : list atom) (w : string) : Prop :=
  match re, w with
  | [], EmptyString => True
  | a :: re', String c w' => atom_is a c /\ spells re' w'
  | _, _ => False
  end.

(** ** Sorting *)

(** The insertion sort of [list_sort] for a comparison that cannot
    raise. *)
Section sort_by.
Context {A : Type} (ltb : A -> A -> bool).

Fixpoint insert_by (x : A) (l : list A) : list A :=
  match l with
  | [] => [x]
  | y :: l' => if ltb y x then y :: insert_by x l' else x :: y :: l'
  end.

Fixpoint sort_by (l : list A) : list A :=
  match l with
  | [] => []
  | x :: l' => insert_by x (sort_by l')
  end.
End sort_by.

(** What [list.sort] returns when no comparison raises. *)
Definition sorted_by {A : Type} (ltb : A -> A -> bool) (reverse_flag : bool)
    (l : list A) : list A :=
  if reverse_flag then reverse (sort_by ltb (reverse l)) else sort_by ltb l.

(** The comparison of two [(key, item)] entries, where it is defined. *)
Definition key_ltb {A : Type} (p q : pyval * A) : bool :=
  match py_lt p.1 q.1 with
  | Ok b => b
  | Raise _ => false
  end.

(** Any two keys of the list can be compared. *)
Definition comparable {A : Type} (l : list (pyval * A)) : Prop :=
  forall p q, p ∈ l -> q ∈ l -> exists b, py_lt p.1 q.1 = Ok b.

(** Comparison of items by an integer key. *)
Definition by_key {A : Type} (key : A -> Z) (a b : A) : bool := key a <? key b.

(** The order of the keys in a sorted list: non-decreasing when the sort
    is ascending, non-increasing when it is descending. *)
Definition in_order {A : Type} (key : A -> Z) (descending : bool) (a b : A) : Prop :=
  if descending then key b <= key a else key a <= key b.

(** A record whose address the sort key can read: a mapping, or a
    sequence with a position 0. *)
Definition ip_readable (h : host) : Prop := exists v, ip_of h = Ok v.

(** The integer a record is sorted by in the address columns. *)
Definition ip_value (IP2Int : pyval -> result (option Z)) (h : host) : Z :=
  match ip_of h with
  | Ok ip =>
      match IP2Int ip with
      | Ok (Some n) => n
      | _ => 0
      end
  | Raise _ => 0
  end.

(** The log entries of the address sort: one for each record whose
    address [IP2Int] raises on, in table order. *)
Definition parse_error (IP2Int : pyval -> result (option Z)) (h : host)
  : list event :=
  match ip_of h with
  | Ok ip =>
      match IP2Int ip with
      | Raise e => [LogError h e]
      | Ok _ => []
      end
  | Raise _ => []
  end.

Definition parse_errors (IP2Int : pyval -> result (option Z)) (hs : list host)
  : list event :=
  concat (parse_error IP2Int <$> hs).

Definition is_log (ev : event) : Prop :=
  match ev with
  | LogError _ _ => True
  | Emitted _ _ => False
  end.

(** The key of the OS sort. *)
Definition os_key (h : host) : pyval :=
  or_else_empty (match h with
                 | HDict d => default VNone (d !! "osMatch")
                 | _ => VNone
                 end).

Definition os_textual (h : host) : Prop := exists s, os_key h = VStr s.

(** The tables on which the path [sort] takes for a column can compute and
    compare its keys. *)
Definition sortable (Ncol : Z) (hosts : list host) : Prop :=
  (Ncol = 0 \/ Ncol = 3 -> Forall ip_readable hosts) /\
  (Ncol = 1 -> Forall os_textual hosts).

(** The record shapes of the data model: a mapping whose OS name, if
    present, is text or [None], or a pair [(ip, id)]. *)
Definition HostRecord (h : host) : Prop :=
  match h with
  | HDict d => forall v, d !! "osMatch" = Some v -> v = VNone \/ exists s, v = VStr s
  | HTuple t => length t = 2%nat
  | HList _ => False
  end.

(** The model after more entries were added to its trace. *)
Definition traced (m : model) (evs : list event) : model :=
  {| _hosts := _hosts m; trace := trace m ++ evs |}.

(** The sort key of the address columns as the spec words it: the value
    of the record's ip as a dotted quad, and 0 when the ip is absent or is
    not a dotted quad. *)
Definition address_value (h : host) : Z :=
  match ip_of h with
  | Ok (VStr s) => default 0 (dotted_quad s)
  | _ => 0
  end.

(** The record has an ip and it is not a dotted quad. *)
Definition unparsable (h : host) : bool :=
  match ip_of h with
  | Ok VNone => false
  | Ok (VStr s) => bool_decide (dotted_quad s = None)
  | Ok _ => true
  | Raise _ => false
  end.

(** The table of the spec's sorting example: the addresses 10.0.0.5,
    10.0.0.2 and one that is not an address. *)
Definition example_hosts : list host :=
  [HDict {[ "ip" := VStr "10.0.0.5" ]};
   HDict {[ "ip" := VStr "10.0.0.2" ]};
   HDict {[ "ip" := VStr "bad-ip" ]}].

Definition example_model : model := {| _hosts := example_hosts; trace := [] |}.

(** ** Lookups by address *)

(** The fields of one record the lookups read. *)
Definition ip_field (h : host) : pyval :=
  match field_of h "ip" with
  | Ok v => v
  | Raise _ => VNone
  end.

Definition checked_field (h : host) : pyval :=
  match field_of h "checked" with
  | Ok v => v
  | Raise _ => VNone
  end.

(** The answer of a scan for the first record that satisfies [P]. *)
Definition first_row (P : host -> Prop) `{forall h, Decision (P h)}
    (answer : nat -> host -> pyval) (hosts : list host) : pyval :=
  match list_find P hosts with
  | Some (i, h) => answer i h
  | None => VNone
  end.

(** ** Further vocabulary: values and records *)

(** A value that is a number or a boolean: anything in [pyval] that is
    neither [None] nor text. *)
Definition nontext (v : pyval) : Prop :=
  match v with
  | VBool _ | VInt _ => True
  | VNone | VStr _ => False
  end.

Definition is_text (v : pyval) : Prop := exists s, v = VStr s.

Definition text_or_absent (v : pyval) : Prop := v = VNone \/ is_text v.

(** A record every cell of which [data] can render: its tuples have both
    positions, and its OS name, ip and hostname are text or absent. *)
Definition renderable (h : host) : Prop :=
  match h with
  | HDict d =>
      text_or_absent (default VNone (d !! "osMatch")) /\
      text_or_absent (default VNone (d !! "ip")) /\
      text_or_absent (default VNone (d !! "hostname"))
  | HTuple t => exists ip id rest, t = ip :: id :: rest /\ text_or_absent ip
  | HList _ => True
  end.

(** ** Further vocabulary: sorting by an ordered key *)

Definition lt_key {A K : Type} (key : A -> K) (ltb : K -> K -> bool) (a b : A)
  : bool :=
  ltb (key a) (key b).

Definition ordered {A K : Type} (key : A -> K) (le : K -> K -> Prop)
    (descending : bool) (a b : A) : Prop :=
  if descending then le (key b) (key a) else le (key a) (key b).

(** The text the OS sort compares. *)
Definition os_text (h : host) : string :=
  match os_key h with
  | VStr s => s
  | _ => EmptyString
  end.

(** ** Further vocabulary: the address sort over any [IP2Int] *)

(** A record the address sort can take the ip of: a mapping, or a tuple
    with a position 0. *)
Definition has_ip_slot (h : host) : Prop :=
  match h with
  | HDict _ => True
  | HTuple t => t <> []
  | HList _ => False
  end.

(** The number a record is ordered by: what [IP2Int] makes of the ip that
    field access reports for the record, and 0 where [IP2Int] answers
    [None] or raises. *)
Definition address_number (IP2Int : pyval -> result (option Z)) (h : host) : Z :=
  match IP2Int (ip_field h) with
  | Ok (Some n) => n
  | Ok None => 0
  | Raise _ => 0
  end.

(** One log entry for each record on whose ip [IP2Int] raises, in table
    order. *)
Definition address_errors (IP2Int : pyval -> result (option Z))
    (hs : list host) : list event :=
  concat ((fun h => match IP2Int (ip_field h) with
                    | Raise e => [LogError h e]
                    | Ok _ => []
                    end) <$> hs).

(** * Properties *)

(** ** Field access *)

Lemma host_at_None (hosts : list host) (r : Z) :
  host_at hosts r = None <-> r < 0 \/ rowCount hosts <= r.
Proof.
  unfold host_at, rowCount.
  destruct (Z.ltb_spec r 0) as [Hneg | Hpos].
  - split; [intros _; lia | reflexivity].
  - rewrite lookup_ge_None. lia.
Qed.

Lemma getSafeHostField_host_at (hosts : list host) (r : Z) (key : string) :
  getSafeHostField hosts r key =
  match host_at hosts r with
  | None => Ok VNone
  | Some h => field_of h key
  end.
Proof.
  unfold getSafeHostField, host_at.
  destruct (Z.ltb_spec r 0) as [Hneg | Hpos]; [reflexivity |].
  rewrite Z.geb_leb.
  destruct (Z.leb_spec (Z.of_nat (length hosts)) r) as [Hge | Hlt]; simpl.
  - rewrite (proj2 (lookup_ge_None hosts (Z.to_nat r))) by lia. reflexivity.
  - destruct (lookup_lt_is_Some_2 hosts (Z.to_nat r)) as [h Hh]; [lia |].
    rewrite Hh. destruct h; reflexivity.
Qed.

Lemma getSafeHostField_out_of_range (hosts : list host) (r : Z) (key : string) :
  r < 0 \/ rowCount hosts <= r -> getSafeHostField hosts r key = Ok VNone.
Proof.
  intros Hr. rewrite getSafeHostField_host_at.
  apply host_at_None in Hr. rewrite Hr. reflexivity.
Qed.

Lemma field_of_Ok (h : host) (key : string) :
  two_or_more h -> exists v, field_of h key = Ok v.
Proof.
  destruct h as [d | t | l]; simpl; intros Hlen; eauto.
  destruct t as [| a [| b t]]; simpl in Hlen; try lia.
  unfold py_index. simpl.
  destruct (String.eqb key "ip"); [eauto |].
  destruct (String.eqb key "id"); eauto.
Qed.

Lemma host_at_elem (hosts : list host) (r : Z) (h : host) :
  host_at hosts r = Some h -> h ∈ hosts.
Proof.
  unfold host_at. destruct (r <? 0); [discriminate |].
  apply list_elem_of_lookup_2.
Qed.

(** C1. [getSafeHostField] never raises on a table of mappings and
    two-element tuples: a row index outside [0, rowCount) yields [None]
    for every key, also on the empty table; a mapping is read by key, a
    missing key yielding [None]; a two-element tuple resolves ['ip'] to
    position 0, ['id'] to position 1 and every other key to [None]. *)
Theorem getSafeHostField_total (hosts : list host) (r : Z) (key : string) :
  (r < 0 \/ rowCount hosts <= r -> getSafeHostField hosts r key = Ok VNone) /\
  getSafeHostField [] r key = Ok VNone /\
  (forall d, host_at hosts r = Some (HDict d) ->
     getSafeHostField hosts r key = Ok (default VNone (d !! key)) /\
     (d !! key = None -> getSafeHostField hosts r key = Ok VNone)) /\
  (forall a b, host_at hosts r = Some (HTuple [a; b]) ->
     getSafeHostField hosts r "ip" = Ok a /\
     getSafeHostField hosts r "id" = Ok b /\
     (key <> "ip" -> key <> "id" -> getSafeHostField hosts r key = Ok VNone)) /\
  (Forall two_or_more hosts -> exists v, getSafeHostField hosts r key = Ok v).
Proof.
  split; [apply getSafeHostField_out_of_range |].
  split.
  { apply getSafeHostField_out_of_range. unfold rowCount. simpl. lia. }
  split.
  { intros d Hd. rewrite getSafeHostField_host_at, Hd. simpl.
    split; [reflexivity |]. intros ->. reflexivity. }
  split.
  { intros a b Ht. rewrite !getSafeHostField_host_at, Ht. simpl.
    split; [reflexivity |]. split; [reflexivity |].
    intros Hip Hid.
    apply String.eqb_neq in Hip. apply String.eqb_neq in Hid.
    rewrite Hip, Hid. reflexivity. }
  intros Hall. rewrite getSafeHostField_host_at.
  destruct (host_at hosts r) as [h |] eqn:Hh; [| eauto].
  apply field_of_Ok.
  rewrite Forall_forall in Hall. apply Hall.
  eapply host_at_elem. eassumption.
Qed.

(** ** The display role *)

Lemma display_single_field (hosts : list host) (r c : Z) (key : string) :
  c <> 3 -> display_keys c = [key] ->
  display hosts (mkIndex r c) = getSafeHostField hosts r key.
Proof.
  intros Hc Hkeys. unfold display_keys in Hkeys. unfold display. simpl.
  repeat match type of Hkeys with
         | (if ?c =? ?n then _ else _) = _ =>
             destruct (Z.eqb_spec c n);
             [first [ lia | injection Hkeys as <-; reflexivity ] |]
         end.
  discriminate.
Qed.

Lemma display_unlisted (hosts : list host) (r c : Z) :
  display_keys c = [] ->
  display hosts (mkIndex r c) = Ok (VStr "Not set in view model").
Proof.
  intros Hkeys. unfold display_keys in Hkeys. unfold display. simpl.
  repeat match type of Hkeys with
         | (if ?c =? ?n then _ else _) = _ =>
             destruct (Z.eqb_spec c n); [discriminate |]
         end.
  reflexivity.
Qed.

Lemma append_assoc (s t u : string) : (s +:+ t) +:+ u = s +:+ t +:+ u.
Proof.
  induction s as [| c s IH]; [reflexivity |].
  change (String c ((s +:+ t) +:+ u) = String c (s +:+ t +:+ u)).
  rewrite IH. reflexivity.
Qed.

Lemma display_address_text (hosts : list host) (r : Z) (ip hostname : option string) :
  getSafeHostField hosts r "ip" = Ok (text_of ip) ->
  getSafeHostField hosts r "hostname" = Ok (text_of hostname) ->
  display hosts (mkIndex r 3) = Ok (VStr (address_text ip hostname)).
Proof.
  intros Hip Hhost. unfold display. simpl. rewrite Hhost, Hip. simpl.
  destruct hostname as [[| c h] |]; destruct ip as [i |]; simpl;
    rewrite ?append_assoc; reflexivity.
Qed.

(** C9. The address column (3) shows exactly the ip when the hostname is
    absent or empty, and the ip followed by the hostname in parentheses
    when the hostname is not empty; an absent ip contributes the empty
    string. *)
Theorem displayValue_address (hosts : list host) (r : Z)
    (ip hostname : option string) :
  getSafeHostField hosts r "ip" = Ok (text_of ip) ->
  getSafeHostField hosts r "hostname" = Ok (text_of hostname) ->
  data hosts (mkIndex r 3) DisplayRole =
    Ok (CValue (VStr (address_text ip hostname))) /\
  (hostname = None \/ hostname = Some "" ->
     address_text ip hostname = default "" ip) /\
  (forall h, hostname = Some h -> h <> "" ->
     address_text ip hostname = default "" ip +:+ " (" +:+ h +:+ ")").
Proof.
  intros Hip Hhost. split.
  - simpl. rewrite (display_address_text hosts r ip hostname Hip Hhost).
    reflexivity.
  - split.
    + intros [-> | ->]; reflexivity.
    + intros h -> Hne. destruct h; [congruence | reflexivity].
Qed.

Lemma displayValue_address_witness :
  data [HDict {[ "ip" := VStr "1.2.3.4" ]}] (mkIndex 0 3) DisplayRole =
    Ok (CValue (VStr "1.2.3.4")) /\
  data [HDict (<[ "hostname" := VStr "web" ]> {[ "ip" := VStr "1.2.3.4" ]})]
       (mkIndex 0 3) DisplayRole =
    Ok (CValue (VStr "1.2.3.4 (web)")).
Proof.
  split.
  - apply (displayValue_address
             [HDict {[ "ip" := VStr "1.2.3.4" ]}] 0 (Some "1.2.3.4") None);
      reflexivity.
  - apply (displayValue_address
             [HDict (<[ "hostname" := VStr "web" ]> {[ "ip" := VStr "1.2.3.4" ]})]
             0 (Some "1.2.3.4") (Some "web"));
      reflexivity.
Defined.

Lemma display_keys_single (c : Z) :
  0 <= c <= 15 -> c <> 1 -> c <> 3 -> exists key, display_keys c = [key].
Proof.
  intros Hc H1 H3.
  assert (c = 0 \/ c = 2 \/ c = 4 \/ c = 5 \/ c = 6 \/ c = 7 \/ c = 8 \/ c = 9 \/
          c = 10 \/ c = 11 \/ c = 12 \/ c = 13 \/ c = 14 \/ c = 15) as Hcases by lia.
  repeat (destruct Hcases as [-> | Hcases]; [eexists; reflexivity |]).
  subst c. eexists; reflexivity.
Qed.

(** C3, as the code has it.  For the single-field columns (0, 2 and 4 to
    15) the display role returns what field access resolves, unchanged: the
    value when there is one, [None] when it is absent, and the exception
    when field access raises.  Only the address column (3) turns an absent
    ip or hostname into the empty string: there an absent part counts as
    an empty one.  Column 1 is not in the column-to-field chain and yields
    the diagnostic string. *)
Theorem displayValue_absent (hosts : list host) (r c : Z) :
  0 <= c <= 15 ->
  (c = 1 \/ c = 3 \/ exists key, display_keys c = [key]) /\
  (forall key, display_keys c = [key] ->
     data hosts (mkIndex r c) DisplayRole =
       (v ← getSafeHostField hosts r key; Ok (CValue v)) /\
     (getSafeHostField hosts r key = Ok VNone ->
        data hosts (mkIndex r c) DisplayRole = Ok (CValue VNone))) /\
  (c = 3 ->
     forall ip hostname : option string,
       getSafeHostField hosts r "ip" = Ok (text_of ip) ->
       getSafeHostField hosts r "hostname" = Ok (text_of hostname) ->
       data hosts (mkIndex r c) DisplayRole =
         Ok (CValue (VStr (address_text ip hostname))) /\
       address_text None hostname = address_text (Some "") hostname /\
       address_text ip None = address_text ip (Some "") /\
       (ip = None -> hostname = None ->
          data hosts (mkIndex r c) DisplayRole = Ok (CValue (VStr "")))) /\
  (c = 1 ->
     data hosts (mkIndex r c) DisplayRole =
       Ok (CValue (VStr "Not set in view model"))).
Proof.
  intros Hc. split; [| split; [| split]].
  - destruct (Z.eq_dec c 1) as [E1 | H1]; [left; exact E1 |].
    destruct (Z.eq_dec c 3) as [E3 | H3]; [right; left; exact E3 |].
    right. right. apply display_keys_single; assumption.
  - intros key Hkey.
    assert (c <> 3) as H3 by (intros ->; discriminate Hkey).
    assert (data hosts (mkIndex r c) DisplayRole =
              (v ← getSafeHostField hosts r key; Ok (CValue v))) as Hdata.
    { simpl. rewrite (display_single_field hosts r c key H3 Hkey). reflexivity. }
    split; [exact Hdata |].
    intros Habsent. rewrite Hdata, Habsent. reflexivity.
  - intros -> ip hostname Hip Hhost.
    assert (data hosts (mkIndex r 3) DisplayRole =
              Ok (CValue (VStr (address_text ip hostname)))) as Hdata.
    { unfold data.
      rewrite (display_address_text hosts r ip hostname Hip Hhost).
      reflexivity. }
    split; [exact Hdata |]. split; [reflexivity |]. split; [reflexivity |].
    intros -> ->. exact Hdata.
  - intros ->. unfold data. rewrite display_unlisted by reflexivity.
    reflexivity.
Qed.

Lemma displayValue_absent_witness :
  data [HTuple [VStr "10.0.0.1"; VInt 7]] (mkIndex 0 7) DisplayRole =
    Ok (CValue VNone) /\
  data [HDict {[ "status" := VStr "up" ]}] (mkIndex 0 7) DisplayRole =
    Ok (CValue (VStr "up")) /\
  data [HDict {[ "hostname" := VStr "web" ]}] (mkIndex 0 3) DisplayRole =
    Ok (CValue (VStr " (web)")) /\
  data [HDict ∅] (mkIndex 0 3) DisplayRole = Ok (CValue (VStr "")).
Proof.
  split; [| split; [| split]].
  - destruct (displayValue_absent [HTuple [VStr "10.0.0.1"; VInt 7]] 0 7)
      as (_ & Hsingle & _); [lia |].
    destruct (Hsingle "status") as [_ Habsent]; [reflexivity |].
    apply Habsent. reflexivity.
  - destruct (displayValue_absent [HDict {[ "status" := VStr "up" ]}] 0 7)
      as (_ & Hsingle & _); [lia |].
    destruct (Hsingle "status") as [Hvalue _]; [reflexivity |].
    rewrite Hvalue. reflexivity.
  - destruct (displayValue_absent [HDict {[ "hostname" := VStr "web" ]}] 0 3)
      as (_ & _ & Haddress & _); [lia |].
    destruct (Haddress eq_refl None (Some "web")) as [Htext _];
      [reflexivity | reflexivity |].
    rewrite Htext. reflexivity.
  - destruct (displayValue_absent [HDict ∅] 0 3)
      as (_ & _ & Haddress & _); [lia |].
    destruct (Haddress eq_refl None None) as (_ & _ & _ & Hempty);
      [reflexivity | reflexivity |].
    apply Hempty; reflexivity.
Defined.

(** C3 as stated fails: the id column (0) of a record without an id is
    [None], not the empty string. *)
Lemma displayValue_absent_is_None :
  getSafeHostField [HDict ∅] 0 "id" = Ok VNone /\
  data [HDict ∅] (mkIndex 0 0) DisplayRole = Ok (CValue VNone) /\
  data [HDict ∅] (mkIndex 0 0) DisplayRole <> Ok (CValue (VStr "")).
Proof. split; [reflexivity |]. split; [reflexivity | discriminate]. Qed.

(** ** The font role *)

Lemma py_eq_str (v : pyval) (s : string) :
  py_eq v (VStr s) = true <-> v = VStr s.
Proof.
  destruct v as [| [] | n | t]; simpl; try (split; discriminate).
  rewrite String.eqb_eq. split; [intros ->; reflexivity | congruence].
Qed.

Lemma font_strikes (hosts : list host) (r c : Z) (f : QFont) :
  data hosts (mkIndex r c) FontRole = Ok (CFont f) <->
  c = 3 /\ getSafeHostField hosts r "checked" = Ok (VStr "True") /\
  f = {| strikeOut := true; italic := true |}.
Proof.
  simpl. unfold font. simpl.
  destruct (Z.eqb_spec c 3) as [-> | Hc].
  - destruct (getSafeHostField hosts r "checked") as [v | e]; simpl.
    + destruct (py_eq v (VStr "True")) eqn:Heq.
      * apply py_eq_str in Heq. subst v.
        split; [intros [= <-]; auto | intros (_ & _ & ->); reflexivity].
      * split; [discriminate |].
        intros (_ & [= ->] & _). simpl in Heq. discriminate.
    + split; [discriminate | intros (_ & [=] & _)].
  - split; [discriminate | intros [? _]; contradiction].
Qed.

(** C5. A row is struck out exactly when its ['checked'] field is the
    string ["True"]; the boolean [True] and the string ["true"] do not
    strike it out.  The font is set on the address cell (column 3) only. *)
Theorem strikeThroughIfChecked_exact (hosts : list host) (r : Z) :
  (strikeThroughIfChecked hosts r = true <->
   getSafeHostField hosts r "checked" = Ok (VStr "True")) /\
  (getSafeHostField hosts r "checked" = Ok (VBool true) ->
   strikeThroughIfChecked hosts r = false) /\
  (getSafeHostField hosts r "checked" = Ok (VStr "true") ->
   strikeThroughIfChecked hosts r = false) /\
  (forall c, c <> 3 -> data hosts (mkIndex r c) FontRole = Ok CNone).
Proof.
  assert (strikeThroughIfChecked hosts r = true <->
          getSafeHostField hosts r "checked" = Ok (VStr "True")) as Hiff.
  { unfold strikeThroughIfChecked.
    destruct (data hosts (mkIndex r 3) FontRole) as [[v | i | f] | e] eqn:Hd.
    - split; [discriminate |]. intros Hc.
      pose proof (proj2 (font_strikes hosts r 3 _) (conj eq_refl (conj Hc eq_refl))).
      congruence.
    - split; [discriminate |]. intros Hc.
      pose proof (proj2 (font_strikes hosts r 3 _) (conj eq_refl (conj Hc eq_refl))).
      congruence.
    - apply font_strikes in Hd. destruct Hd as (_ & Hc & ->). simpl.
      split; auto.
    - split; [discriminate |]. intros Hc.
      pose proof (proj2 (font_strikes hosts r 3 _) (conj eq_refl (conj Hc eq_refl))).
      congruence. }
  split; [exact Hiff |].
  split.
  { intros Hc. apply not_true_is_false. intros Hs.
    apply Hiff in Hs. congruence. }
  split.
  { intros Hc. apply not_true_is_false. intros Hs.
    apply Hiff in Hs. congruence. }
  intros c Hc. simpl. unfold font. simpl.
  destruct (Z.eqb_spec c 3); [contradiction | reflexivity].
Qed.

Lemma strikeThroughIfChecked_exact_witness :
  strikeThroughIfChecked [HDict {[ "checked" := VBool true ]}] 0 = false /\
  strikeThroughIfChecked [HDict {[ "checked" := VStr "true" ]}] 0 = false /\
  data [HDict {[ "checked" := VStr "True" ]}] (mkIndex 0 0) FontRole = Ok CNone.
Proof.
  split.
  - destruct (strikeThroughIfChecked_exact
                [HDict {[ "checked" := VBool true ]}] 0) as (_ & Hbool & _ & _).
    apply Hbool. reflexivity.
  - split.
    + destruct (strikeThroughIfChecked_exact
                  [HDict {[ "checked" := VStr "true" ]}] 0) as (_ & _ & Hlower & _).
      apply Hlower. reflexivity.
    + destruct (strikeThroughIfChecked_exact
                  [HDict {[ "checked" := VStr "True" ]}] 0) as (_ & _ & _ & Hcol).
      apply Hcol. lia.
Defined.

Lemma getSafeHostField_total_witness :
  getSafeHostField [HDict ∅] 5 "ip" = Ok VNone /\
  getSafeHostField [HDict {[ "ip" := VStr "10.0.0.1" ]}] 0 "hostname" = Ok VNone /\
  getSafeHostField [HTuple [VStr "10.0.0.1"; VInt 7]] 0 "hostname" = Ok VNone /\
  exists v, getSafeHostField [HTuple [VStr "10.0.0.1"; VInt 7]] 0 "id" = Ok v.
Proof.
  split.
  - destruct (getSafeHostField_total [HDict ∅] 5 "ip") as (Hout & _).
    apply Hout. right. unfold rowCount. simpl. lia.
  - split.
    + destruct (getSafeHostField_total
                  [HDict {[ "ip" := VStr "10.0.0.1" ]}] 0 "hostname")
        as (_ & _ & Hdict & _).
      apply (Hdict {[ "ip" := VStr "10.0.0.1" ]}); reflexivity.
    + split.
      * destruct (getSafeHostField_total
                    [HTuple [VStr "10.0.0.1"; VInt 7]] 0 "hostname")
          as (_ & _ & _ & Htuple & _).
        apply (Htuple (VStr "10.0.0.1") (VInt 7)); [reflexivity | | ]; discriminate.
      * destruct (getSafeHostField_total
                    [HTuple [VStr "10.0.0.1"; VInt 7]] 0 "id")
          as (_ & _ & _ & _ & Htotal).
        apply Htotal. repeat constructor.
Defined.

(** ** The decoration role *)

Lemma char_eq_lower (a x : ascii) :
  char_eq true a x = Ascii.eqb (to_lower x) (to_lower a).
Proof. unfold char_eq. apply Ascii.eqb_sym. Qed.

Lemma atom_is_Lit (a : ascii) : atom_is (Lit a) a.
Proof. intros x. cbn [atom_matches]. apply char_eq_lower. Qed.

Lemma atom_is_Class (a b : ascii) :
  to_lower b = to_lower a -> atom_is (Class [a; b]) a.
Proof.
  intros Hab x. cbn [atom_matches existsb]. rewrite !char_eq_lower, Hab.
  destruct (Ascii.eqb (to_lower x) (to_lower a)); reflexivity.
Qed.

Lemma append_nil_l (s : string) : "" +:+ s = s.
Proof. reflexivity. Qed.

Lemma append_cons (c : ascii) (s t : string) :
  String c s +:+ t = String c (s +:+ t).
Proof. reflexivity. Qed.

Lemma re_match_spells (re : list atom) (w : string) :
  spells re w ->
  forall s, re_match true re s = true <->
            exists post, lower_string s = lower_string w +:+ post.
Proof.
  revert w. induction re as [| a re IH]; intros [| c w] Hsp s;
    simpl in Hsp; try contradiction.
  - simpl. split; [intros _; exists (lower_string s); reflexivity | reflexivity].
  - destruct Hsp as [Ha Hsp]. destruct s as [| x s]; simpl.
    + split; [discriminate |]. intros [post Hpost].
      rewrite append_cons in Hpost. discriminate.
    + rewrite andb_true_iff, (Ha x), Ascii.eqb_eq, (IH w Hsp s).
      split.
      * intros [Hx [post Hpost]]. exists post.
        rewrite append_cons, Hx, Hpost. reflexivity.
      * intros [post Hpost]. rewrite append_cons in Hpost.
        injection Hpost as Hx Hpost. eauto.
Qed.

Lemma re_scan_spells (re : list atom) (w : string) :
  spells re w ->
  forall s, re_scan true re s = true <-> contains_ci w s.
Proof.
  intros Hsp s. unfold contains_ci.
  induction s as [| x s IH]; simpl; rewrite orb_true_iff, (re_match_spells re w Hsp).
  - split.
    + intros [[post Hpost] | Hf]; [| discriminate].
      exists "", post. exact Hpost.
    + intros ([| p pre] & post & Hpost).
      * left. exists post. exact Hpost.
      * rewrite append_cons in Hpost. discriminate.
  - rewrite IH. split.
    + intros [[post Hpost] | (pre & post & Hpost)].
      * exists "", post. exact Hpost.
      * exists (String (to_lower x) pre), post.
        rewrite append_cons, Hpost. reflexivity.
    + intros ([| p pre] & post & Hpost).
      * left. exists post. exact Hpost.
      * right. rewrite append_cons in Hpost. injection Hpost as _ Hpost.
        exists pre, post. exact Hpost.
Qed.

Lemma re_search_contains (pattern w os : string) :
  spells (re_compile pattern) w ->
  exists b, re_search pattern (VStr os) re_I = Ok b /\
            (b = true <-> contains_ci w os).
Proof.
  intros Hsp. eexists. split; [reflexivity |].
  apply re_scan_spells. exact Hsp.
Qed.

Ltac spell :=
  cbv [re_compile re_parse Ascii.eqb Bool.eqb rev rev_append app spells];
  repeat split;
  first [ apply atom_is_Lit | apply atom_is_Class; reflexivity ].

Lemma spells_linux : spells (re_compile "[lL]inux") "linux".
Proof. spell. Qed.

Lemma spells_windows : spells (re_compile "[wW]indows") "windows".
Proof. spell. Qed.

Lemma spells_cisco : spells (re_compile "[cC]isco") "cisco".
Proof. spell. Qed.

Lemma spells_hp : spells (re_compile "HP ") "HP ".
Proof. spell. Qed.

Lemma spells_vxworks : spells (re_compile "[vV]x[wW]orks") "vxworks".
Proof. spell. Qed.

Lemma spells_vmware : spells (re_compile "[vV]m[wW]are") "vmware".
Proof. spell. Qed.

Lemma truthy_text (os : string) : os <> "" -> truthy (VStr os) = true.
Proof.
  intros Hne. simpl. apply negb_true_iff. apply String.eqb_neq. exact Hne.
Qed.

Ltac search_step os lemma :=
  let b := fresh "b" in
  let Hb := fresh "Hb" in
  destruct (re_search_contains _ _ os lemma) as (b & -> & Hb);
  cbn [mbind result_bind];
  destruct b;
  [ pose proof (proj1 Hb eq_refl)
  | assert (~ contains_ci _ os) by (intros Hc; apply Hb in Hc; discriminate) ];
  clear Hb.

Ltac found c :=
  exists c; split; [reflexivity | cbn [first_match os_words]; tauto].

Lemma decoration_text (hosts : list host) (r : Z) (os : string) :
  getSafeHostField hosts r "osMatch" = Ok (VStr os) -> os <> "" ->
  exists c, decoration hosts (mkIndex r 1) = Ok (QIcon (icon_file c)) /\
            first_match os_words os c.
Proof.
  intros Hfield Hne. unfold decoration.
  change (column (mkIndex r 1) =? 1) with true.
  change (row (mkIndex r 1)) with r.
  cbv iota. rewrite Hfield. cbn [mbind result_bind].
  rewrite (truthy_text os Hne). cbn [negb].
  search_step os spells_linux; [found Linux |].
  search_step os spells_windows; [found Windows |].
  search_step os spells_cisco; [found Cisco |].
  search_step os spells_hp; [found HP |].
  search_step os spells_vxworks; [found HP |].
  search_step os spells_vmware; [found VMware |].
  found Unknown.
Qed.

Lemma decoration_empty (hosts : list host) (r : Z) (v : pyval) :
  getSafeHostField hosts r "osMatch" = Ok v -> truthy v = false ->
  decoration hosts (mkIndex r 1) = Ok (QIcon (icon_file Unknown)).
Proof.
  intros Hfield Hv. unfold decoration.
  change (column (mkIndex r 1) =? 1) with true.
  change (row (mkIndex r 1)) with r.
  cbv iota. rewrite Hfield. cbn [mbind result_bind].
  rewrite Hv. reflexivity.
Qed.

Lemma contains_ci_nonempty (w os : string) :
  w <> "" -> contains_ci w os -> os <> "".
Proof.
  intros Hw (pre & post & Heq) ->.
  destruct w as [| c w]; [congruence |].
  destruct pre as [| p pre]; simpl in Heq.
  - rewrite append_nil_l, append_cons in Heq. discriminate.
  - rewrite append_cons in Heq. discriminate.
Qed.

(** C2, as the code has it.  The decoration role of column 1 looks for
    the words linux, windows, cisco, "HP " (with its space), vxworks and
    vmware in the OS name, letter case ignored, and answers with the icon of
    the first word found, in that order; an absent or empty OS name, and a
    name with none of the words, get the question-mark icon.  There are six
    icons: a name with vxworks and none of the earlier words gets the HP
    icon, the one "HP " gets. *)
Theorem classifyByOSName_first_match (hosts : list host) (r : Z) (v : pyval) :
  getSafeHostField hosts r "osMatch" = Ok v ->
  (v = VNone \/ v = VStr "" ->
   data hosts (mkIndex r 1) DecorationRole = Ok (QIcon (icon_file Unknown))) /\
  (forall os, v = VStr os -> os <> "" ->
     exists c, data hosts (mkIndex r 1) DecorationRole = Ok (QIcon (icon_file c)) /\
               first_match os_words os c) /\
  (forall os, v = VStr os -> contains_ci "vxworks" os ->
     ~ contains_ci "linux" os -> ~ contains_ci "windows" os ->
     ~ contains_ci "cisco" os ->
     data hosts (mkIndex r 1) DecorationRole = Ok (QIcon (icon_file HP))).
Proof.
  intros Hfield. split.
  { intros Hv. simpl. apply (decoration_empty hosts r v Hfield).
    destruct Hv as [-> | ->]; reflexivity. }
  split.
  { intros os -> Hne. simpl. apply decoration_text; assumption. }
  intros os -> Hvx Hlinux Hwindows Hcisco. simpl.
  assert (os <> "") as Hne by (apply (contains_ci_nonempty "vxworks"); [discriminate | exact Hvx]).
  destruct (decoration_text hosts r os Hfield Hne) as (c & -> & Hc).
  cbn [first_match os_words] in Hc.
  assert (c = HP) as -> by intuition congruence.
  reflexivity.
Qed.

Lemma classifyByOSName_first_match_witness :
  data [HDict ∅] (mkIndex 0 1) DecorationRole = Ok (QIcon (icon_file Unknown)) /\
  exists c, data [HDict {[ "osMatch" := VStr "Linux 5.4" ]}] (mkIndex 0 1)
                 DecorationRole = Ok (QIcon (icon_file c)) /\
            first_match os_words "Linux 5.4" c.
Proof.
  split.
  - assert (getSafeHostField [HDict ∅] 0 "osMatch" = Ok VNone) as Hfield
      by reflexivity.
    destruct (classifyByOSName_first_match _ _ _ Hfield) as (Hempty & _).
    apply Hempty. left. reflexivity.
  - assert (getSafeHostField [HDict {[ "osMatch" := VStr "Linux 5.4" ]}] 0 "osMatch"
            = Ok (VStr "Linux 5.4")) as Hfield by reflexivity.
    destruct (classifyByOSName_first_match _ _ _ Hfield) as (_ & Htext & _).
    apply (Htext "Linux 5.4"); [reflexivity | discriminate].
Defined.

(** C2 as stated fails: an OS name with vxworks gets the same answer as
    one with "HP ", so the answers do not tell a VxWorks category from
    HP. *)
Lemma vxworks_gets_hp_icon :
  data [HDict {[ "osMatch" := VStr "VxWorks 6.9" ]}] (mkIndex 0 1) DecorationRole =
    Ok (QIcon "./images/hp-icon.png") /\
  data [HDict {[ "osMatch" := VStr "HP JetDirect" ]}] (mkIndex 0 1) DecorationRole =
    Ok (QIcon "./images/hp-icon.png").
Proof. split; reflexivity. Qed.

(** ** Sorting: the insertion sort *)

Section sort_by_facts.
Context {A : Type}.

Lemma insert_by_Permutation (ltb : A -> A -> bool) (x : A) (l : list A) :
  insert_by ltb x l ≡ₚ x :: l.
Proof.
  induction l as [| y l IH]; simpl; [reflexivity |].
  destruct (ltb y x); [| reflexivity].
  rewrite IH. apply Permutation_swap.
Qed.

Lemma sort_by_Permutation (ltb : A -> A -> bool) (l : list A) :
  sort_by ltb l ≡ₚ l.
Proof.
  induction l as [| x l IH]; simpl; [reflexivity |].
  rewrite insert_by_Permutation, IH. reflexivity.
Qed.

Lemma sorted_by_Permutation (ltb : A -> A -> bool) (rv : bool) (l : list A) :
  sorted_by ltb rv l ≡ₚ l.
Proof.
  unfold sorted_by. destruct rv.
  - rewrite reverse_Permutation, sort_by_Permutation. apply reverse_Permutation.
  - apply sort_by_Permutation.
Qed.

Lemma insert_by_fmap {B : Type} (f : A -> B) (lt1 : A -> A -> bool)
    (lt2 : B -> B -> bool) (x : A) (l : list A) :
  (forall a b, lt2 (f a) (f b) = lt1 a b) ->
  insert_by lt2 (f x) (f <$> l) = f <$> insert_by lt1 x l.
Proof.
  intros Hlt. induction l as [| y l IH]; [reflexivity |].
  rewrite fmap_cons. cbn [insert_by]. rewrite Hlt.
  destruct (lt1 y x); [rewrite IH |]; reflexivity.
Qed.

Lemma sort_by_fmap {B : Type} (f : A -> B) (lt1 : A -> A -> bool)
    (lt2 : B -> B -> bool) (l : list A) :
  (forall a b, lt2 (f a) (f b) = lt1 a b) ->
  sort_by lt2 (f <$> l) = f <$> sort_by lt1 l.
Proof.
  intros Hlt. induction l as [| x l IH]; [reflexivity |].
  rewrite fmap_cons. cbn [sort_by]. rewrite IH.
  apply insert_by_fmap. exact Hlt.
Qed.

Lemma sorted_by_fmap {B : Type} (f : A -> B) (lt1 : A -> A -> bool)
    (lt2 : B -> B -> bool) (rv : bool) (l : list A) :
  (forall a b, lt2 (f a) (f b) = lt1 a b) ->
  sorted_by lt2 rv (f <$> l) = f <$> sorted_by lt1 rv l.
Proof.
  intros Hlt. unfold sorted_by. destruct rv.
  - rewrite <- fmap_reverse, (sort_by_fmap f lt1 lt2) by exact Hlt.
    apply eq_sym, fmap_reverse.
  - apply sort_by_fmap. exact Hlt.
Qed.

(** Sorting by an integer key: the result is in order, and the records
    of each key keep their relative order. *)
Variable key : A -> Z.

Lemma insert_by_sorted (x : A) (l : list A) :
  StronglySorted (in_order key false) l ->
  StronglySorted (in_order key false) (insert_by (by_key key) x l).
Proof.
  induction l as [| y l IH]; simpl; intros Hs.
  - repeat constructor.
  - apply StronglySorted_inv in Hs. destruct Hs as [Hs Hy].
    unfold by_key at 1. destruct (Z.ltb_spec (key y) (key x)) as [Hlt | Hge].
    + constructor; [apply IH; exact Hs |].
      rewrite insert_by_Permutation. constructor; [| exact Hy].
      unfold in_order. lia.
    + constructor; [constructor; assumption |].
      constructor; [exact Hge |].
      eapply Forall_impl; [exact Hy |].
      unfold in_order. intros z Hz. simpl in *. lia.
Qed.

Lemma sort_by_sorted (l : list A) :
  StronglySorted (in_order key false) (sort_by (by_key key) l).
Proof.
  induction l as [| x l IH]; simpl; [constructor | apply insert_by_sorted, IH].
Qed.

Lemma StronglySorted_reverse (R : A -> A -> Prop) (l : list A) :
  StronglySorted R l -> StronglySorted (flip R) (reverse l).
Proof.
  induction 1 as [| x l Hs IH Hx]; [constructor |].
  rewrite reverse_cons. apply StronglySorted_app_2.
  - intros a b Ha Hb. apply list_elem_of_singleton in Hb. subst b.
    rewrite elem_of_reverse in Ha. rewrite Forall_forall in Hx. apply Hx, Ha.
  - exact IH.
  - repeat constructor.
Qed.

Lemma sorted_by_in_order (rv : bool) (l : list A) :
  StronglySorted (in_order key rv) (sorted_by (by_key key) rv l).
Proof.
  unfold sorted_by. destruct rv.
  - apply (StronglySorted_reverse (in_order key false)), sort_by_sorted.
  - apply sort_by_sorted.
Qed.

Lemma insert_by_stable (k : Z) (x : A) (l : list A) :
  filter (fun a => key a = k) (insert_by (by_key key) x l) =
  filter (fun a => key a = k) (x :: l).
Proof.
  induction l as [| y l IH]; simpl; [reflexivity |].
  unfold by_key at 1. destruct (Z.ltb_spec (key y) (key x)) as [Hlt | Hge];
    [| reflexivity].
  rewrite (filter_cons _ y), IH, !filter_cons.
  destruct (decide (key x = k)), (decide (key y = k)); try reflexivity.
  lia.
Qed.

Lemma sort_by_stable (k : Z) (l : list A) :
  filter (fun a => key a = k) (sort_by (by_key key) l) =
  filter (fun a => key a = k) l.
Proof.
  induction l as [| x l IH]; simpl; [reflexivity |].
  rewrite insert_by_stable, !filter_cons, IH. reflexivity.
Qed.

Lemma sorted_by_stable (k : Z) (rv : bool) (l : list A) :
  filter (fun a => key a = k) (sorted_by (by_key key) rv l) =
  filter (fun a => key a = k) l.
Proof.
  unfold sorted_by. destruct rv; [| apply sort_by_stable].
  rewrite filter_reverse, sort_by_stable, filter_reverse.
  apply reverse_involutive.
Qed.
End sort_by_facts.

(** A list that is in order and keeps the records of each key in their
    original order is determined by these two facts: the result of a
    stable sort does not depend on the sorting algorithm. *)
Lemma stable_sort_unique {A : Type} (key : A -> Z) (rv : bool) (l1 l2 : list A) :
  StronglySorted (in_order key rv) l1 ->
  StronglySorted (in_order key rv) l2 ->
  (forall k, filter (fun a => key a = k) l1 = filter (fun a => key a = k) l2) ->
  l1 = l2.
Proof.
  revert l2. induction l1 as [| x l1 IH]; intros l2 Hs1 Hs2 Hf.
  - destruct l2 as [| y l2]; [reflexivity |].
    specialize (Hf (key y)). rewrite filter_nil, filter_cons_True in Hf by reflexivity.
    discriminate.
  - destruct l2 as [| y l2].
    { specialize (Hf (key x)). rewrite filter_nil, filter_cons_True in Hf by reflexivity.
      discriminate. }
    apply StronglySorted_inv in Hs1. destruct Hs1 as [Hs1 Hx].
    apply StronglySorted_inv in Hs2. destruct Hs2 as [Hs2 Hy].
    rewrite Forall_forall in Hx. rewrite Forall_forall in Hy.
    assert (y ∈ x :: l1) as Hy1.
    { assert (y ∈ filter (fun a => key a = key y) (x :: l1)) as Hin.
      { rewrite Hf, filter_cons_True by reflexivity. constructor. }
      apply list_elem_of_filter in Hin. exact (proj2 Hin). }
    assert (x ∈ y :: l2) as Hx2.
    { assert (x ∈ filter (fun a => key a = key x) (y :: l2)) as Hin.
      { rewrite <- Hf, filter_cons_True by reflexivity. constructor. }
      apply list_elem_of_filter in Hin. exact (proj2 Hin). }
    assert (key y = key x) as Hk.
    { apply elem_of_cons in Hy1. apply elem_of_cons in Hx2.
      destruct Hy1 as [-> | Hy1]; [reflexivity |].
      destruct Hx2 as [-> | Hx2]; [reflexivity |].
      specialize (Hx y Hy1). specialize (Hy x Hx2).
      unfold in_order in Hx, Hy. destruct rv; lia. }
    pose proof (Hf (key x)) as Hfx.
    rewrite !filter_cons_True in Hfx by (reflexivity || exact Hk).
    injection Hfx as -> Hfx.
    f_equal. apply IH; [exact Hs1 | exact Hs2 |].
    intros k. specialize (Hf k). rewrite !filter_cons in Hf.
    destruct (decide (key y = k)); [injection Hf as Hf |]; exact Hf.
Qed.

(** ** Sorting: [list.sort] *)

Section list_sort_facts.
Context {A : Type}.
Implicit Types (x : pyval * A) (l : list (pyval * A)).

Lemma sort_insert_Permutation x l l' :
  sort_insert x l = Ok l' -> l' ≡ₚ x :: l.
Proof.
  revert l'. induction l as [| y l IH]; intros l'; cbn [sort_insert].
  - intros [= <-]. reflexivity.
  - destruct (py_lt y.1 x.1) as [[|] | e]; cbn [mbind result_bind]; try discriminate.
    + destruct (sort_insert x l) as [r | e]; cbn [mbind result_bind]; try discriminate.
      intros [= <-]. rewrite (IH r eq_refl). apply Permutation_swap.
    + intros [= <-]. reflexivity.
Qed.

Lemma sort_forward_Permutation l l' :
  sort_forward l = Ok l' -> l' ≡ₚ l.
Proof.
  revert l'. induction l as [| x l IH]; intros l'; cbn [sort_forward].
  - intros [= <-]. reflexivity.
  - destruct (sort_forward l) as [s | e]; cbn [mbind result_bind]; try discriminate.
    intros Hins. rewrite (sort_insert_Permutation _ _ _ Hins), (IH s eq_refl).
    reflexivity.
Qed.

Lemma list_sort_Permutation l (rv : bool) l' :
  list_sort l rv = Ok l' -> l' ≡ₚ l.
Proof.
  unfold list_sort. destruct rv; [| apply sort_forward_Permutation].
  destruct (sort_forward (reverse l)) as [r | e] eqn:Hr;
    cbn [mbind result_bind]; try discriminate.
  intros [= <-]. rewrite reverse_Permutation, (sort_forward_Permutation _ _ Hr).
  apply reverse_Permutation.
Qed.

Lemma sort_insert_pure x l :
  (forall q, q ∈ l -> exists b, py_lt q.1 x.1 = Ok b) ->
  sort_insert x l = Ok (insert_by key_ltb x l).
Proof.
  induction l as [| y l IH]; intros Hcmp; cbn [sort_insert insert_by];
    [reflexivity |].
  destruct (Hcmp y) as [b Hb]; [constructor |].
  unfold key_ltb at 1. rewrite Hb. cbn [mbind result_bind].
  destruct b; [| reflexivity].
  rewrite IH; [reflexivity |].
  intros q Hq. apply Hcmp. constructor. exact Hq.
Qed.

Lemma sort_forward_pure l :
  comparable l -> sort_forward l = Ok (sort_by key_ltb l).
Proof.
  induction l as [| x l IH]; intros Hcmp; cbn [sort_forward sort_by];
    [reflexivity |].
  rewrite IH.
  - cbn [mbind result_bind]. apply sort_insert_pure.
    intros q Hq. rewrite sort_by_Permutation in Hq.
    apply Hcmp; [constructor; exact Hq | constructor].
  - intros p q Hp Hq. apply Hcmp; constructor; assumption.
Qed.

Lemma list_sort_pure l (rv : bool) :
  comparable l -> list_sort l rv = Ok (sorted_by key_ltb rv l).
Proof.
  intros Hcmp. unfold list_sort, sorted_by. destruct rv.
  - rewrite sort_forward_pure; [reflexivity |].
    intros p q Hp Hq. rewrite elem_of_reverse in Hp, Hq. apply Hcmp; assumption.
  - apply sort_forward_pure. exact Hcmp.
Qed.
End list_sort_facts.

(** ** Sorting: runs of the model *)

Lemma traced_nil (m : model) : traced m [] = m.
Proof. destruct m as [hs tr]. unfold traced. simpl. rewrite app_nil_r. reflexivity. Qed.

Lemma traced_app (m : model) (a b : list event) :
  traced (traced m a) b = traced m (a ++ b).
Proof. unfold traced. simpl. rewrite app_assoc. reflexivity. Qed.

Lemma bind_run {A B : Type} (c : M A) (k : A -> M B) (m : model) :
  (c ≫= k) m =
  match c m with
  | (Ok a, m') => k a m'
  | (Raise e, m') => (Raise e, m')
  end.
Proof. reflexivity. Qed.

Lemma parse_error_is_log (IP2Int : pyval -> result (option Z)) (h : host) :
  Forall is_log (parse_error IP2Int h).
Proof.
  unfold parse_error. destruct (ip_of h) as [ip | e]; [| constructor].
  destruct (IP2Int ip) as [n | e]; repeat constructor.
Qed.

Lemma parse_errors_is_log (IP2Int : pyval -> result (option Z)) (hs : list host) :
  Forall is_log (parse_errors IP2Int hs).
Proof.
  unfold parse_errors. induction hs as [| h hs IH]; [constructor |].
  rewrite fmap_cons. cbn [concat]. apply Forall_app.
  split; [apply parse_error_is_log | exact IH].
Qed.

Section sort_runs.
Variable IP2Int : pyval -> result (option Z).

Lemma ip_key_run (h : host) (m : model) :
  ip_key IP2Int h m =
  match ip_of h with
  | Ok _ => (Ok (VInt (ip_value IP2Int h)), traced m (parse_error IP2Int h))
  | Raise e => (Raise e, m)
  end.
Proof.
  unfold ip_key, ip_value, parse_error. rewrite bind_run. unfold lift.
  destruct (ip_of h) as [ip | e]; [| reflexivity].
  destruct (IP2Int ip) as [[n |] | e]; cbn; rewrite ?traced_nil; reflexivity.
Qed.

Lemma for_each_ip_key_run (hs : list host) (m : model) :
  (Forall ip_readable hs /\
   for_each (ip_key IP2Int) hs m =
     (Ok ((fun h => VInt (ip_value IP2Int h)) <$> hs),
      traced m (parse_errors IP2Int hs))) \/
  (~ Forall ip_readable hs /\
   exists e logs, for_each (ip_key IP2Int) hs m = (Raise e, traced m logs) /\
                  Forall is_log logs).
Proof.
  revert m. induction hs as [| h hs IH]; intros m.
  - left. split; [constructor |]. cbn. rewrite traced_nil. reflexivity.
  - cbn [for_each]. rewrite bind_run, ip_key_run.
    destruct (ip_of h) as [ip | e] eqn:Hip.
    + rewrite bind_run.
      destruct (IH (traced m (parse_error IP2Int h)))
        as [[Hall Hrun] | [Hnot (e & logs & Hrun & Hlogs)]]; rewrite Hrun.
      * left. split; [constructor; [exists ip; exact Hip | exact Hall] |].
        cbn. rewrite traced_app. reflexivity.
      * right. split.
        { intros Hall. apply Hnot. apply Forall_inv_tail in Hall. exact Hall. }
        exists e, (parse_error IP2Int h ++ logs). rewrite traced_app.
        split; [reflexivity |].
        apply Forall_app. split; [apply parse_error_is_log | exact Hlogs].
    + right. split.
      { intros Hall. apply Forall_inv in Hall. destruct Hall as [v Hv]. congruence. }
      exists e, []. rewrite traced_nil. split; [reflexivity | constructor].
Qed.

Lemma zip_keys (f : host -> pyval) (hs : list host) :
  zip (f <$> hs) hs = (fun h => (f h, h)) <$> hs.
Proof. induction hs as [| h hs IH]; [reflexivity |]. cbn. rewrite <- IH. reflexivity. Qed.

Lemma snd_keys (f : host -> pyval) (hs : list host) :
  ((fun h => (f h, h)) <$> hs).*2 = hs.
Proof. induction hs as [| h hs IH]; [reflexivity |]. cbn. f_equal. exact IH. Qed.

Lemma comparable_int_keys (key : host -> Z) (hs : list host) :
  comparable ((fun h => (VInt (key h), h)) <$> hs).
Proof.
  intros p q Hp Hq.
  apply list_elem_of_fmap in Hp. destruct Hp as (a & -> & _).
  apply list_elem_of_fmap in Hq. destruct Hq as (b & -> & _).
  simpl. eauto.
Qed.

Lemma sorted_by_int_keys (key : host -> Z) (rv : bool) (hs : list host) :
  sorted_by key_ltb rv ((fun h => (VInt (key h), h)) <$> hs) =
  (fun h => (VInt (key h), h)) <$> sorted_by (by_key key) rv hs.
Proof. apply sorted_by_fmap. intros a b. reflexivity. Qed.

(** The in-place sort of the address columns. *)
Lemma hosts_sort_ip_run (rv : bool) (m : model) :
  (Forall ip_readable (_hosts m) /\
   hosts_sort (ip_key IP2Int) rv m =
     (Ok tt,
      {| _hosts := sorted_by (by_key (ip_value IP2Int)) rv (_hosts m);
         trace := trace m ++ parse_errors IP2Int (_hosts m) |})) \/
  (~ Forall ip_readable (_hosts m) /\
   exists e logs, hosts_sort (ip_key IP2Int) rv m = (Raise e, traced m logs) /\
                  Forall is_log logs).
Proof.
  unfold hosts_sort. rewrite bind_run. cbn [get_hosts]. rewrite bind_run.
  destruct (for_each_ip_key_run (_hosts m) m)
    as [[Hall Hrun] | [Hnot (e & logs & Hrun & Hlogs)]]; rewrite Hrun.
  - left. split; [exact Hall |].
    rewrite bind_run. unfold lift.
    rewrite (zip_keys (fun h => VInt (ip_value IP2Int h))).
    rewrite list_sort_pure by apply comparable_int_keys.
    rewrite sorted_by_int_keys, snd_keys. reflexivity.
  - right. split; [exact Hnot |]. exists e, logs. split; [reflexivity | exact Hlogs].
Qed.
End sort_runs.

Lemma host_at_nat (hs : list host) (i : nat) : host_at hs (Z.of_nat i) = hs !! i.
Proof.
  unfold host_at. destruct (Z.ltb_spec (Z.of_nat i) 0) as [Hneg | _]; [lia |].
  rewrite Nat2Z.id. reflexivity.
Qed.

Lemma getSafeHostField_osMatch (hs : list host) (i : nat) (h : host) :
  hs !! i = Some h ->
  getSafeHostField hs (Z.of_nat i) "osMatch" ≫= (fun v => Ok (or_else_empty v)) =
  Ok (os_key h).
Proof.
  intros Hh. rewrite getSafeHostField_host_at, host_at_nat, Hh.
  destruct h; reflexivity.
Qed.

Lemma collect_os_keys_from (pre suf : list host) :
  collect (fun i => v ← getSafeHostField (pre ++ suf) (Z.of_nat i) "osMatch";
                    Ok (or_else_empty v))
          (seq (length pre) (length suf)) =
  Ok (os_key <$> suf).
Proof.
  revert pre. induction suf as [| h suf IH]; intros pre; [reflexivity |].
  cbn [length seq collect].
  rewrite (getSafeHostField_osMatch (pre ++ h :: suf) (length pre) h)
    by apply list_lookup_middle, eq_refl.
  cbn [mbind result_bind].
  specialize (IH (pre ++ [h])).
  rewrite <- app_assoc, length_app in IH. cbn [app length] in IH.
  rewrite Nat.add_1_r in IH. rewrite IH. reflexivity.
Qed.

Lemma collect_os_keys (hs : list host) :
  collect (fun i => v ← getSafeHostField hs (Z.of_nat i) "osMatch";
                    Ok (or_else_empty v))
          (seq 0 (length hs)) =
  Ok (os_key <$> hs).
Proof. apply (collect_os_keys_from [] hs). Qed.

Lemma sortByOS_run (order : SortOrder) (m : model) :
  sortByOS order m =
  match list_sort ((fun h => (os_key h, h)) <$> _hosts m) (is_descending order) with
  | Ok l' => (Ok tt, {| _hosts := l'.*2;
                        trace := trace m ++ [Emitted layoutChanged (l'.*2)] |})
  | Raise e => (Raise e, m)
  end.
Proof.
  unfold sortByOS. rewrite bind_run. cbn [get_hosts]. rewrite bind_run.
  unfold lift at 1. rewrite collect_os_keys, zip_keys, bind_run. unfold lift.
  destruct (list_sort _ _) as [l' | e]; reflexivity.
Qed.

Lemma comparable_text_keys (hs : list host) :
  Forall os_textual hs -> comparable ((fun h => (os_key h, h)) <$> hs).
Proof.
  intros Hall p q Hp Hq. rewrite Forall_forall in Hall.
  apply list_elem_of_fmap in Hp. destruct Hp as (a & -> & Ha).
  apply list_elem_of_fmap in Hq. destruct Hq as (b & -> & Hb).
  destruct (Hall a Ha) as [s Hs]. destruct (Hall b Hb) as [t Ht].
  simpl. rewrite Hs, Ht. simpl. eauto.
Qed.

Lemma sort_other_run (IP2Int : pyval -> result (option Z)) (Ncol : Z)
    (order : SortOrder) (m : model) :
  Ncol <> 0 -> Ncol <> 1 -> Ncol <> 3 ->
  sort IP2Int Ncol order m =
  (Ok tt, traced m [Emitted layoutAboutToBeChanged (_hosts m);
                    Emitted layoutChanged (_hosts m)]).
Proof.
  intros H0 H1 H3. unfold sort.
  destruct (Z.eqb_spec Ncol 0); [contradiction |].
  destruct (Z.eqb_spec Ncol 3); [contradiction |].
  destruct (Z.eqb_spec Ncol 1); [contradiction |].
  rewrite bind_run. cbn [emit orb]. unfold emit, traced. cbn [_hosts trace].
  rewrite <- app_assoc. reflexivity.
Qed.

(** Every run of [sort]: the begin notification is emitted on the table
    as it was; the table ends as a permutation of what it was; and either
    the call returns, having emitted the end notification on the final
    table, or it raises, leaving the table as it was and the end
    notification out.  It returns on every sortable table. *)
Lemma sort_run (IP2Int : pyval -> result (option Z)) (Ncol : Z)
    (order : SortOrder) (m : model) :
  exists (r : result unit) (hosts' : list host) (logs : list event),
    sort IP2Int Ncol order m =
      (r, {| _hosts := hosts';
             trace := trace m ++
                      [Emitted layoutAboutToBeChanged (_hosts m)] ++ logs ++
                      match r with
                      | Ok _ => [Emitted layoutChanged hosts']
                      | Raise _ => []
                      end |}) /\
    hosts' ≡ₚ _hosts m /\
    Forall is_log logs /\
    (forall e, r = Raise e -> hosts' = _hosts m) /\
    (sortable Ncol (_hosts m) -> r = Ok tt).
Proof.
  destruct (decide (Ncol = 0 \/ Ncol = 3)) as [Hip | Hnip].
  - (* the address columns *)
    unfold sort. rewrite bind_run. cbn [emit].
    assert ((Ncol =? 0) || (Ncol =? 3) = true) as ->.
    { apply orb_true_iff. rewrite !Z.eqb_eq. exact Hip. }
    rewrite bind_run.
    match goal with |- context [hosts_sort _ _ ?m1] => set (m' := m1) end.
    destruct (hosts_sort_ip_run IP2Int (is_descending order) m')
      as [[Hall Hrun] | [Hnot (e & logs & Hrun & Hlogs)]]; rewrite Hrun.
    + exists (Ok tt), (sorted_by (by_key (ip_value IP2Int))
                                  (is_descending order) (_hosts m)),
             (parse_errors IP2Int (_hosts m)).
      split; [subst m'; unfold emit; cbn [_hosts trace];
              rewrite <- ?app_assoc; reflexivity |].
      split; [apply sorted_by_Permutation |].
      split; [apply parse_errors_is_log |].
      split; [discriminate | reflexivity].
    + exists (Raise e), (_hosts m), logs.
      split; [subst m'; unfold traced; cbn [_hosts trace];
              rewrite app_nil_r, <- ?app_assoc; reflexivity |].
      split; [reflexivity |].
      split; [exact Hlogs |].
      split; [reflexivity |].
      intros [Hsort _]. exfalso. apply Hnot, Hsort, Hip.
  - destruct (decide (Ncol = 1)) as [-> | Hnos].
    + (* the OS column *)
      unfold sort. rewrite bind_run. cbn [emit].
      change ((1 =? 0) || (1 =? 3)) with false. change (1 =? 1) with true.
      cbv iota. rewrite sortByOS_run. cbn [_hosts trace].
      destruct (list_sort _ _) as [l' | e] eqn:Hsort.
      * exists (Ok tt), (l'.*2), [].
        split; [rewrite <- ?app_assoc; reflexivity |].
        split.
        { apply list_sort_Permutation in Hsort. rewrite Hsort, snd_keys. reflexivity. }
        split; [constructor |].
        split; [discriminate | reflexivity].
      * exists (Raise e), (_hosts m), [].
        split; [rewrite app_nil_r; reflexivity |].
        split; [reflexivity |].
        split; [constructor |].
        split; [reflexivity |].
        intros [_ Hos]. specialize (Hos eq_refl).
        rewrite list_sort_pure in Hsort by (apply comparable_text_keys, Hos).
        discriminate.
    + (* the other columns *)
      exists (Ok tt), (_hosts m), [].
      split.
      { rewrite sort_other_run by lia. unfold traced. reflexivity. }
      split; [reflexivity |].
      split; [constructor |].
      split; [discriminate | reflexivity].
Qed.

Lemma HostRecord_sortable (Ncol : Z) (hosts : list host) :
  Forall HostRecord hosts -> sortable Ncol hosts.
Proof.
  intros Hall. split; intros _; (eapply Forall_impl; [exact Hall |]).
  - intros [d | t | l] Hh; simpl in Hh; try contradiction.
    + eexists. reflexivity.
    + destruct t as [| a t]; [discriminate |]. exists a. reflexivity.
  - intros [d | t | l] Hh; simpl in Hh; try contradiction.
    + unfold os_textual, os_key.
      destruct (d !! "osMatch") as [v |] eqn:Hv; simpl.
      * destruct (Hh v eq_refl) as [-> | [s ->]]; [exists ""; reflexivity |].
        unfold or_else_empty. destruct (truthy (VStr s)); eauto.
      * exists "". reflexivity.
    + exists "". reflexivity.
Qed.

(** C6. Whatever the column and the direction, the table after [sort]
    is a permutation of the table before it: no record is added, removed or
    changed.  This holds on the address path, on the OS path, which
    rebuilds the list from its (key, record) pairs, on the other columns,
    and also when the call raises. *)
Theorem sort_Permutation (IP2Int : pyval -> result (option Z)) (Ncol : Z)
    (order : SortOrder) (m : model) :
  Permutation (_hosts m) (_hosts (sort IP2Int Ncol order m).2).
Proof.
  destruct (sort_run IP2Int Ncol order m) as (r & hosts' & logs & -> & Hperm & _).
  simpl. symmetry. exact Hperm.
Qed.

(** C7, as the code has it.  On every path ([Ncol] 0 or 3, 1, or any
    other index) a call of [sort] first emits [layoutAboutToBeChanged],
    while the table is still as it was, and after that at most writes to
    the log.  A call that returns emits [layoutChanged] last, on the table
    as the call leaves it: it has one notification before the reordering
    and one after it, and no other.  A call that raises has emitted no
    [layoutChanged].  The call returns on every table whose keys its path
    can compute and compare. *)
Theorem sort_bracketed (IP2Int : pyval -> result (option Z)) (Ncol : Z)
    (order : SortOrder) (m : model) :
  exists (r : result unit) (hosts' : list host) (logs : list event),
    sort IP2Int Ncol order m =
      (r, {| _hosts := hosts';
             trace := trace m ++
                      [Emitted layoutAboutToBeChanged (_hosts m)] ++ logs ++
                      match r with
                      | Ok _ => [Emitted layoutChanged hosts']
                      | Raise _ => []
                      end |}) /\
    Forall is_log logs /\
    (sortable Ncol (_hosts m) -> r = Ok tt).
Proof.
  destruct (sort_run IP2Int Ncol order m)
    as (r & hosts' & logs & Hrun & _ & Hlogs & _ & Hok).
  exists r, hosts', logs. split; [exact Hrun |]. split; [exact Hlogs | exact Hok].
Qed.

(** C8. For a column other than 0, 1 and 3, [sort] returns and leaves
    the table as it was, in order and in content. *)
Theorem sort_other_columns (IP2Int : pyval -> result (option Z)) (Ncol : Z)
    (order : SortOrder) (m : model) :
  Ncol <> 0 -> Ncol <> 1 -> Ncol <> 3 ->
  (sort IP2Int Ncol order m).1 = Ok tt /\
  _hosts (sort IP2Int Ncol order m).2 = _hosts m.
Proof.
  intros H0 H1 H3. rewrite sort_other_run by assumption.
  split; reflexivity.
Qed.

Lemma sort_bracketed_witness :
  exists (hosts' : list host) (logs : list event),
    sort IP2Int_dotted_quad 0 AscendingOrder example_model =
      (Ok tt, {| _hosts := hosts';
                 trace := trace example_model ++
                          [Emitted layoutAboutToBeChanged (_hosts example_model)] ++
                          logs ++ [Emitted layoutChanged hosts'] |}) /\
    Forall is_log logs.
Proof.
  destruct (sort_bracketed IP2Int_dotted_quad 0 AscendingOrder example_model)
    as (r & hosts' & logs & Hrun & Hlogs & Hreturns).
  assert (sortable 0 (_hosts example_model)) as Hsortable.
  { split.
    - intros _. repeat constructor; eexists; reflexivity.
    - intros H. discriminate H. }
  rewrite (Hreturns Hsortable) in Hrun.
  exists hosts', logs. split; [exact Hrun | exact Hlogs].
Defined.

Lemma sort_other_columns_witness :
  (sort IP2Int_dotted_quad 2 DescendingOrder example_model).1 = Ok tt /\
  _hosts (sort IP2Int_dotted_quad 2 DescendingOrder example_model).2 =
    _hosts example_model.
Proof.
  apply (sort_other_columns IP2Int_dotted_quad 2 DescendingOrder example_model);
    discriminate.
Defined.

(** C7 as stated fails: when the OS names of a table are a number and a
    text, the OS sort (column 1) raises on comparing them once the begin
    notification is out; the call ends with that one notification and no
    [layoutChanged]. *)
Lemma sort_mixed_os_names_raises :
  let hosts := [HDict {[ "osMatch" := VInt 5 ]};
                HDict {[ "osMatch" := VStr "Linux" ]}] in
  sort IP2Int_dotted_quad 1 AscendingOrder {| _hosts := hosts; trace := [] |} =
    (Raise TypeError,
     {| _hosts := hosts; trace := [Emitted layoutAboutToBeChanged hosts] |}) /\
  Emitted layoutChanged hosts ∉
    trace (sort IP2Int_dotted_quad 1 AscendingOrder
             {| _hosts := hosts; trace := [] |}).2.
Proof.
  cbv zeta. split; [reflexivity |].
  intros Hin. apply list_elem_of_singleton in Hin. discriminate Hin.
Qed.

(** Outside the sortable tables the end notification can be missing: on
    the table the constructor takes by default, one empty list, the address
    sort raises once the begin notification is out. *)
Lemma sort_default_table_raises :
  sort IP2Int_dotted_quad 0 AscendingOrder {| _hosts := [HList []]; trace := [] |} =
  (Raise IndexError,
   {| _hosts := [HList []];
      trace := [Emitted layoutAboutToBeChanged [HList []]] |}).
Proof. reflexivity. Qed.

(** ** Sorting by address *)

Lemma digit_of_range (c : ascii) (d : Z) : digit_of c = Some d -> 0 <= d <= 9.
Proof.
  unfold digit_of.
  destruct (Nat.leb_spec 48 (nat_of_ascii c)); [| discriminate].
  destruct (Nat.leb_spec (nat_of_ascii c) 57); [| discriminate].
  simpl. intros [= <-]. lia.
Qed.

Lemma parse_decimal_nonneg (s : string) (acc n : Z) :
  0 <= acc -> parse_decimal acc s = Some n -> 0 <= n.
Proof.
  revert acc. induction s as [| c s IH]; intros acc Hacc; simpl.
  - intros [= <-]. exact Hacc.
  - destruct (digit_of c) as [d |] eqn:Hd; [| discriminate].
    apply digit_of_range in Hd. apply IH. lia.
Qed.

Lemma parse_octet_range (s : string) (n : Z) :
  parse_octet s = Some n -> 0 <= n <= 255.
Proof.
  unfold parse_octet. destruct s as [| c s]; [discriminate |].
  destruct (parse_decimal 0 (String c s)) as [k |] eqn:Hk; [| discriminate].
  destruct (Z.leb_spec k 255); [| discriminate].
  intros [= <-]. apply parse_decimal_nonneg in Hk; lia.
Qed.

Lemma dotted_quad_range (s : string) (n : Z) :
  dotted_quad s = Some n -> 0 <= n < 2 ^ 32.
Proof.
  unfold dotted_quad.
  destruct (split_on "." s) as [| p1 [| p2 [| p3 [| p4 [| ? ?]]]]];
    cbn [fmap list_fmap];
    repeat match goal with
           | |- context [parse_octet ?p] =>
               let Ho := fresh "Ho" in destruct (parse_octet p) eqn:Ho
           end;
    try discriminate.
  intros [= <-].
  repeat match goal with
         | Ho : parse_octet _ = Some _ |- _ => apply parse_octet_range in Ho
         end.
  change (2 ^ 32) with 4294967296. lia.
Qed.

Lemma address_value_range (h : host) : 0 <= address_value h < 2 ^ 32.
Proof.
  unfold address_value.
  destruct (ip_of h) as [[| b | n | s] | e]; try (change (2 ^ 32) with 4294967296; lia).
  destruct (dotted_quad s) as [n |] eqn:Hn; simpl.
  - apply (dotted_quad_range s n Hn).
  - change (2 ^ 32) with 4294967296. lia.
Qed.

(** The key the code computes with the dotted-quad [IP2Int] is the
    address value. *)
Lemma ip_value_dotted_quad (h : host) :
  ip_value IP2Int_dotted_quad h = address_value h.
Proof.
  unfold ip_value, address_value, IP2Int_dotted_quad.
  destruct (ip_of h) as [[| b | n | s] | e]; try reflexivity.
  destruct (dotted_quad s); reflexivity.
Qed.

Lemma parse_error_dotted_quad (h : host) :
  parse_error IP2Int_dotted_quad h =
  if unparsable h then [LogError h ValueError] else [].
Proof.
  unfold parse_error, unparsable, IP2Int_dotted_quad.
  destruct (ip_of h) as [[| b | n | s] | e]; try reflexivity.
  destruct (dotted_quad s); reflexivity.
Qed.

Lemma parse_errors_dotted_quad (hs : list host) :
  parse_errors IP2Int_dotted_quad hs =
  (fun h => LogError h ValueError) <$> filter (fun h => unparsable h = true) hs.
Proof.
  unfold parse_errors. induction hs as [| h hs IH]; [reflexivity |].
  rewrite fmap_cons, filter_cons. cbn [concat].
  rewrite IH, parse_error_dotted_quad.
  destruct (unparsable h); simpl; reflexivity.
Qed.

Lemma StronglySorted_lookup_lt {A : Type} (R : A -> A -> Prop) (l : list A)
    (i j : nat) (a b : A) :
  StronglySorted R l -> l !! i = Some a -> l !! j = Some b -> (i < j)%nat -> R a b.
Proof.
  intros Hs. revert i j. induction Hs as [| x l Hs IH Hx]; intros i j Hi Hj Hlt.
  - discriminate.
  - destruct j as [| j]; [lia |]. destruct i as [| i]; simpl in Hi, Hj.
    + injection Hi as ->. rewrite Forall_forall in Hx.
      apply Hx. eapply list_elem_of_lookup_2. exact Hj.
    + apply (IH i j); [assumption | assumption | lia].
Qed.

Lemma StronglySorted_impl {A : Type} (R1 R2 : A -> A -> Prop) (l : list A) :
  (forall a b, R1 a b -> R2 a b) -> StronglySorted R1 l -> StronglySorted R2 l.
Proof.
  intros HR. induction 1 as [| x l Hs IH Hx]; constructor; [exact IH |].
  eapply Forall_impl; [exact Hx | apply HR].
Qed.

Lemma sort_ip_run (IP2Int : pyval -> result (option Z)) (Ncol : Z)
    (order : SortOrder) (m : model) :
  Ncol = 0 \/ Ncol = 3 ->
  Forall ip_readable (_hosts m) ->
  sort IP2Int Ncol order m =
    (Ok tt,
     {| _hosts := sorted_by (by_key (ip_value IP2Int)) (is_descending order) (_hosts m);
        trace := trace m ++
                 [Emitted layoutAboutToBeChanged (_hosts m)] ++
                 parse_errors IP2Int (_hosts m) ++
                 [Emitted layoutChanged
                    (sorted_by (by_key (ip_value IP2Int)) (is_descending order)
                               (_hosts m))] |}).
Proof.
  intros Hcol Hall. unfold sort. rewrite bind_run. cbn [emit].
  assert ((Ncol =? 0) || (Ncol =? 3) = true) as ->.
  { apply orb_true_iff. rewrite !Z.eqb_eq. exact Hcol. }
  rewrite bind_run.
  match goal with |- context [hosts_sort _ _ ?m1] => set (m' := m1) end.
  destruct (hosts_sort_ip_run IP2Int (is_descending order) m')
    as [[_ Hrun] | [Hnot _]]; [| contradiction].
  rewrite Hrun. subst m'. unfold emit. cbn [_hosts trace].
  rewrite <- ?app_assoc. reflexivity.
Qed.

(** With [IP2Int] the dotted-quad parser, on a table of records the sort
    key can read the address of: sorting by column 0 or 3 orders the
    records by the value of their ip as a dotted quad, a number below
    2^32; a record whose ip is
    absent or is not a dotted quad has the key 0, the least, so it comes
    before every record of positive key in ascending order and after it in
    descending order.  The call returns: a parse error is written to the
    log, one entry per record with such an ip, and raises nothing.  The
    sort is stable: the records of each key keep their order. *)
Theorem sort_by_ip (Ncol : Z) (order : SortOrder) (m : model) :
  Ncol = 0 \/ Ncol = 3 ->
  Forall ip_readable (_hosts m) ->
  exists hosts' : list host,
    sort IP2Int_dotted_quad Ncol order m =
      (Ok tt,
       {| _hosts := hosts';
          trace := trace m ++
                   [Emitted layoutAboutToBeChanged (_hosts m)] ++
                   ((fun h => LogError h ValueError) <$>
                      filter (fun h => unparsable h = true) (_hosts m)) ++
                   [Emitted layoutChanged hosts'] |}) /\
    Permutation (_hosts m) hosts' /\
    StronglySorted (in_order address_value (is_descending order)) hosts' /\
    (forall k, filter (fun h => address_value h = k) hosts' =
               filter (fun h => address_value h = k) (_hosts m)) /\
    (forall h, 0 <= address_value h < 2 ^ 32) /\
    (forall h, ip_of h = Ok VNone \/ unparsable h = true -> address_value h = 0) /\
    (forall i j hi hj,
       hosts' !! i = Some hi -> hosts' !! j = Some hj ->
       address_value hi = 0 -> 0 < address_value hj ->
       if is_descending order then (j < i)%nat else (i < j)%nat).
Proof.
  intros Hcol Hall.
  set (hosts' := sorted_by (by_key (ip_value IP2Int_dotted_quad))
                           (is_descending order) (_hosts m)).
  assert (StronglySorted (in_order address_value (is_descending order)) hosts')
    as Hsorted.
  { apply (StronglySorted_impl
             (in_order (ip_value IP2Int_dotted_quad) (is_descending order))).
    - intros a b. unfold in_order. rewrite !ip_value_dotted_quad. auto.
    - apply sorted_by_in_order. }
  exists hosts'. split; [| split; [| split; [| split; [| split; [| split]]]]].
  - rewrite (sort_ip_run IP2Int_dotted_quad Ncol order m Hcol Hall).
    rewrite parse_errors_dotted_quad. reflexivity.
  - symmetry. apply sorted_by_Permutation.
  - exact Hsorted.
  - intros k.
    rewrite (list_filter_iff (fun h => address_value h = k)
                             (fun h => ip_value IP2Int_dotted_quad h = k))
      by (intros h; rewrite ip_value_dotted_quad; reflexivity).
    rewrite (list_filter_iff (fun h => address_value h = k)
                             (fun h => ip_value IP2Int_dotted_quad h = k) (_hosts m))
      by (intros h; rewrite ip_value_dotted_quad; reflexivity).
    apply sorted_by_stable.
  - apply address_value_range.
  - intros h [Hnone | Hbad]; unfold address_value.
    + rewrite Hnone. reflexivity.
    + unfold unparsable in Hbad.
      destruct (ip_of h) as [[| b | n | s] | e]; try reflexivity.
      apply bool_decide_eq_true in Hbad. rewrite Hbad. reflexivity.
  - intros i j hi hj Hi Hj Hzero Hpos.
    destruct (lt_eq_lt_dec i j) as [[Hlt | Heq] | Hgt].
    + pose proof (StronglySorted_lookup_lt _ _ _ _ _ _ Hsorted Hi Hj Hlt) as Hord.
      unfold in_order in Hord. destruct (is_descending order); lia.
    + subst j. rewrite Hi in Hj. injection Hj as ->. lia.
    + pose proof (StronglySorted_lookup_lt _ _ _ _ _ _ Hsorted Hj Hi Hgt) as Hord.
      unfold in_order in Hord. destruct (is_descending order); lia.
Qed.

Lemma sort_by_ip_witness :
  exists hosts' : list host,
    _hosts (sort IP2Int_dotted_quad 0 AscendingOrder example_model).2 = hosts' /\
    Permutation example_hosts hosts' /\
    StronglySorted (in_order address_value false) hosts'.
Proof.
  assert (Forall ip_readable (_hosts example_model)) as Hall
    by (repeat constructor; eexists; reflexivity).
  destruct (sort_by_ip 0 AscendingOrder example_model (or_introl eq_refl) Hall)
    as (hosts' & Hrun & Hperm & Hsorted & _).
  exists hosts'. rewrite Hrun. split; [reflexivity |]. split; assumption.
Defined.

(** The spec's example: sorted by column 0, the record with the
    unparsable address comes first ascending and last descending, and its
    parse error is in the log. *)
Lemma sort_by_ip_example :
  ip_of <$> _hosts (sort IP2Int_dotted_quad 0 AscendingOrder example_model).2 =
    [Ok (VStr "bad-ip"); Ok (VStr "10.0.0.2"); Ok (VStr "10.0.0.5")] /\
  ip_of <$> _hosts (sort IP2Int_dotted_quad 0 DescendingOrder example_model).2 =
    [Ok (VStr "10.0.0.5"); Ok (VStr "10.0.0.2"); Ok (VStr "bad-ip")] /\
  LogError (HDict {[ "ip" := VStr "bad-ip" ]}) ValueError
    ∈ trace (sort IP2Int_dotted_quad 0 AscendingOrder example_model).2.
Proof.
  split; [reflexivity |]. split; [reflexivity |].
  vm_compute. repeat constructor.
Qed.

(** ** Lookups by address *)

Lemma for_range_find (P : host -> Prop) `{forall h, Decision (P h)}
    (answer : nat -> host -> pyval) (body : nat -> result (option pyval))
    (pre suf : list host) :
  (forall i h, suf !! i = Some h ->
     body (length pre + i)%nat =
       Ok (if decide (P h) then Some (answer (length pre + i)%nat h) else None)) ->
  for_range body (seq (length pre) (length suf)) =
  Ok (match list_find P suf with
      | Some (i, h) => Some (answer (length pre + i)%nat h)
      | None => None
      end).
Proof.
  revert pre. induction suf as [| h suf IH]; intros pre Hbody; [reflexivity |].
  cbn [length seq for_range list_find].
  pose proof (Hbody 0%nat h eq_refl) as H0. rewrite Nat.add_0_r in H0.
  rewrite H0. cbn [mbind result_bind].
  destruct (decide (P h)) as [Hp | Hn].
  - rewrite Nat.add_0_r. reflexivity.
  - specialize (IH (pre ++ [h])).
    rewrite length_app in IH. cbn [length] in IH. rewrite Nat.add_1_r in IH.
    rewrite IH.
    + destruct (list_find P suf) as [[i x] |]; simpl; [| reflexivity].
      rewrite Nat.add_succ_r. reflexivity.
    + intros i x Hx. cbn [plus]. rewrite <- Nat.add_succ_r.
      apply (Hbody (S i) x). exact Hx.
Qed.

Lemma getSafeHostField_lookup (hosts : list host) (i : nat) (h : host) (key : string) :
  hosts !! i = Some h -> getSafeHostField hosts (Z.of_nat i) key = field_of h key.
Proof.
  intros Hh. rewrite getSafeHostField_host_at, host_at_nat, Hh. reflexivity.
Qed.

Lemma field_of_ip (h : host) : two_or_more h -> field_of h "ip" = Ok (ip_field h).
Proof.
  intros Hh. unfold ip_field.
  destruct (field_of_Ok h "ip" Hh) as [v ->]. reflexivity.
Qed.

Lemma field_of_checked (h : host) : field_of h "checked" = Ok (checked_field h).
Proof. destruct h; reflexivity. Qed.

(** [getRowForIp] answers with the first row whose ip equals the query
    in the sense of [==]. *)
Lemma getRowForIp_find (hosts : list host) (q : pyval) :
  Forall two_or_more hosts ->
  getRowForIp hosts q =
  Ok (first_row (fun h => py_eq (ip_field h) q = true)
                (fun i _ => VInt (Z.of_nat i)) hosts).
Proof.
  intros Hall. unfold getRowForIp, first_row.
  rewrite (for_range_find (fun h => py_eq (ip_field h) q = true)
                          (fun i _ => VInt (Z.of_nat i)) _ [] hosts).
  - cbn [mbind result_bind]. destruct (list_find _ hosts) as [[i h] |]; reflexivity.
  - intros i h Hh. cbn [length plus].
    rewrite (getSafeHostField_lookup hosts i h "ip" Hh), field_of_ip.
    + cbn [mbind result_bind].
      destruct (py_eq (ip_field h) q); case_decide; congruence.
    + rewrite Forall_forall in Hall. apply Hall.
      eapply list_elem_of_lookup_2. exact Hh.
Qed.

(** [getHostCheckStatusForIp] answers with the checked field of the first
    row whose ip and the query have the same [str]. *)
Lemma getHostCheckStatusForIp_find (hosts : list host) (q : pyval) :
  Forall two_or_more hosts ->
  getHostCheckStatusForIp hosts q =
  Ok (first_row (fun h => py_str (ip_field h) = py_str q)
                (fun _ h => checked_field h) hosts).
Proof.
  intros Hall. unfold getHostCheckStatusForIp, first_row.
  rewrite (for_range_find (fun h => py_str (ip_field h) = py_str q)
                          (fun _ h => checked_field h) _ [] hosts).
  - cbn [mbind result_bind]. destruct (list_find _ hosts) as [[i h] |]; reflexivity.
  - intros i h Hh. cbn [length plus].
    rewrite (getSafeHostField_lookup hosts i h "ip" Hh), field_of_ip.
    + cbn [mbind result_bind].
      rewrite (getSafeHostField_lookup hosts i h "checked" Hh), field_of_checked.
      cbn [mbind result_bind].
      destruct (String.eqb_spec (py_str (ip_field h)) (py_str q));
        case_decide; congruence.
    + rewrite Forall_forall in Hall. apply Hall.
      eapply list_elem_of_lookup_2. exact Hh.
Qed.

(** C10. [getRowForIp] compares the ip of each row with the query by
    [==], [getHostCheckStatusForIp] compares their [str]; so the two can
    disagree: for an ip stored as the integer 7 and the query "7",
    [getRowForIp] finds no row while [getHostCheckStatusForIp] returns the
    checked value of that row. *)
Theorem lookups_by_ip_disagree :
  (forall (hosts : list host) (q : pyval),
     Forall two_or_more hosts ->
     getRowForIp hosts q =
       Ok (first_row (fun h => py_eq (ip_field h) q = true)
                     (fun i _ => VInt (Z.of_nat i)) hosts) /\
     getHostCheckStatusForIp hosts q =
       Ok (first_row (fun h => py_str (ip_field h) = py_str q)
                     (fun _ h => checked_field h) hosts)) /\
  (exists (hosts : list host) (stored q c : pyval),
     getHostIPForRow hosts 0 = Ok stored /\
     (forall s, stored <> VStr s) /\
     q = VStr (py_str stored) /\
     getHostCheckStatusForRow hosts 0 = Ok c /\
     c <> VNone /\
     getRowForIp hosts q = Ok VNone /\
     getHostCheckStatusForIp hosts q = Ok c).
Proof.
  split.
  - intros hosts q Hall.
    split; [apply getRowForIp_find | apply getHostCheckStatusForIp_find]; exact Hall.
  - exists [HDict (<[ "ip" := VInt 7 ]> {[ "checked" := VStr "True" ]})],
           (VInt 7), (VStr "7"), (VStr "True").
    split; [reflexivity |]. split; [discriminate |].
    split; [reflexivity |]. split; [reflexivity |].
    split; [discriminate |]. split; reflexivity.
Qed.

Lemma lookups_by_ip_disagree_witness :
  getRowForIp [HTuple [VInt 7; VInt 1]; HTuple [VStr "7"; VInt 2]] (VStr "7") =
    Ok (VInt 1) /\
  getHostCheckStatusForIp
    [HDict (<[ "ip" := VInt 7 ]> {[ "checked" := VStr "True" ]})] (VStr "7") =
    Ok (VStr "True").
Proof.
  split.
  - destruct lookups_by_ip_disagree as [Hfind _].
    destruct (Hfind [HTuple [VInt 7; VInt 1]; HTuple [VStr "7"; VInt 2]] (VStr "7"))
      as [Hrow _]; [repeat constructor |].
    rewrite Hrow. reflexivity.
  - destruct lookups_by_ip_disagree as [Hfind _].
    destruct (Hfind [HDict (<[ "ip" := VInt 7 ]> {[ "checked" := VStr "True" ]})]
                    (VStr "7")) as [_ Hstatus]; [repeat constructor |].
    rewrite Hstatus. reflexivity.
Defined.

(** * Further properties *)

(** ** Lookups *)

Lemma getRowForIp_None_iff (hosts : list host) (q : pyval) :
  Forall two_or_more hosts ->
  getRowForIp hosts q = Ok VNone <->
  Forall (fun h => py_eq (ip_field h) q <> true) hosts.
Proof.
  intros Hall. rewrite (getRowForIp_find hosts q Hall). unfold first_row.
  rewrite <- (list_find_None (fun h => py_eq (ip_field h) q = true)).
  destruct (list_find _ hosts) as [[i h] |]; split; congruence.
Qed.

Lemma getHostIPForRow_lookup (hosts : list host) (i : nat) (h : host) :
  two_or_more h -> hosts !! i = Some h ->
  getHostIPForRow hosts (Z.of_nat i) = Ok (ip_field h).
Proof.
  intros Hh Hi. unfold getHostIPForRow.
  rewrite (getSafeHostField_lookup hosts i h "ip" Hi). apply field_of_ip, Hh.
Qed.

(** X1: [getRowForIp] answers with a row of the table, the first one whose ip
    is equal to the query, or with [None] when no row has such an ip. *)
Theorem getRowForIp_first_match (hosts : list host) (q : pyval) :
  Forall two_or_more hosts ->
  (exists i : nat,
     getRowForIp hosts q = Ok (VInt (Z.of_nat i)) /\
     0 <= Z.of_nat i < rowCount hosts /\
     (exists v, getHostIPForRow hosts (Z.of_nat i) = Ok v /\ py_eq v q = true) /\
     (forall (j : nat) v, (j < i)%nat ->
        getHostIPForRow hosts (Z.of_nat j) = Ok v -> py_eq v q = false)) \/
  (getRowForIp hosts q = Ok VNone /\
   forall (j : nat) v, (j < length hosts)%nat ->
     getHostIPForRow hosts (Z.of_nat j) = Ok v -> py_eq v q = false).
Proof.
  intros Hall. pose proof Hall as Hall'. rewrite Forall_forall in Hall'.
  rewrite (getRowForIp_find hosts q Hall). unfold first_row.
  destruct (list_find _ hosts) as [[i h] |] eqn:Hfind.
  - left. apply list_find_Some in Hfind. destruct Hfind as (Hi & Hp & Hfirst).
    exists i. split; [reflexivity |].
    split; [apply lookup_lt_Some in Hi; unfold rowCount; lia |].
    assert (two_or_more h) as Hh by (eapply Hall', list_elem_of_lookup_2, Hi).
    split.
    + exists (ip_field h). split; [apply getHostIPForRow_lookup; assumption | exact Hp].
    + intros j v Hj Hv.
      destruct (lookup_lt_is_Some_2 hosts j) as [y Hy];
        [apply lookup_lt_Some in Hi; lia |].
      assert (two_or_more y) as Hy2 by (eapply Hall', list_elem_of_lookup_2, Hy).
      rewrite (getHostIPForRow_lookup hosts j y Hy2 Hy) in Hv. injection Hv as <-.
      apply not_true_is_false. exact (Hfirst j y Hy Hj).
  - right. split; [reflexivity |].
    apply list_find_None in Hfind. rewrite Forall_forall in Hfind.
    intros j v Hj Hv.
    destruct (lookup_lt_is_Some_2 hosts j Hj) as [y Hy].
    assert (y ∈ hosts) as Hin by (eapply list_elem_of_lookup_2, Hy).
    rewrite (getHostIPForRow_lookup hosts j y (Hall' y Hin) Hy) in Hv.
    injection Hv as <-. apply not_true_is_false. exact (Hfind y Hin).
Qed.

Lemma getRowForIp_first_match_witness :
  (exists i : nat,
     getRowForIp [HTuple [VStr "10.0.0.1"; VInt 7]; HTuple [VStr "10.0.0.1"; VInt 8]]
                 (VStr "10.0.0.1") = Ok (VInt (Z.of_nat i)) /\
     0 <= Z.of_nat i <
       rowCount [HTuple [VStr "10.0.0.1"; VInt 7]; HTuple [VStr "10.0.0.1"; VInt 8]] /\
     (exists v,
        getHostIPForRow
          [HTuple [VStr "10.0.0.1"; VInt 7]; HTuple [VStr "10.0.0.1"; VInt 8]]
          (Z.of_nat i) = Ok v /\ py_eq v (VStr "10.0.0.1") = true) /\
     (forall (j : nat) v, (j < i)%nat ->
        getHostIPForRow
          [HTuple [VStr "10.0.0.1"; VInt 7]; HTuple [VStr "10.0.0.1"; VInt 8]]
          (Z.of_nat j) = Ok v -> py_eq v (VStr "10.0.0.1") = false)) \/
  (getRowForIp [HTuple [VStr "10.0.0.1"; VInt 7]; HTuple [VStr "10.0.0.1"; VInt 8]]
               (VStr "10.0.0.1") = Ok VNone /\
   forall (j : nat) v,
     (j < length [HTuple [VStr "10.0.0.1"; VInt 7]; HTuple [VStr "10.0.0.1"; VInt 8]])%nat ->
     getHostIPForRow
       [HTuple [VStr "10.0.0.1"; VInt 7]; HTuple [VStr "10.0.0.1"; VInt 8]]
       (Z.of_nat j) = Ok v -> py_eq v (VStr "10.0.0.1") = false).
Proof.
  apply (getRowForIp_first_match
           [HTuple [VStr "10.0.0.1"; VInt 7]; HTuple [VStr "10.0.0.1"; VInt 8]]
           (VStr "10.0.0.1")).
  repeat constructor.
Defined.

Lemma list_find_ext_on {A : Type} (P Q : A -> Prop)
    `{forall x, Decision (P x)} `{forall x, Decision (Q x)} (l : list A) :
  (forall x, x ∈ l -> P x <-> Q x) -> list_find P l = list_find Q l.
Proof.
  induction l as [| x l IH]; intros Hext; [reflexivity |].
  cbn [list_find].
  rewrite (decide_ext (P x) (Q x)) by (apply Hext; constructor).
  rewrite IH; [reflexivity |].
  intros y Hy. apply Hext. constructor. exact Hy.
Qed.

Lemma py_eq_text (s t : string) :
  py_eq (VStr s) (VStr t) = true <-> py_str (VStr s) = py_str (VStr t).
Proof. simpl. apply String.eqb_eq. Qed.

(** X2: on a table whose ips are text, looking the check status up by a text
    ip is the same as finding the row with [getRowForIp] and reading its
    check status. *)
Theorem lookups_agree_on_text (hosts : list host) (s : string) :
  Forall two_or_more hosts ->
  Forall (fun h => is_text (ip_field h)) hosts ->
  getHostCheckStatusForIp hosts (VStr s) =
  (r ← getRowForIp hosts (VStr s);
   match r with
   | VInt i => getHostCheckStatusForRow hosts i
   | _ => Ok VNone
   end).
Proof.
  intros Hall Htext.
  rewrite (getHostCheckStatusForIp_find hosts (VStr s) Hall).
  rewrite (getRowForIp_find hosts (VStr s) Hall). cbn [mbind result_bind].
  unfold first_row.
  rewrite (list_find_ext_on (fun h => py_str (ip_field h) = py_str (VStr s))
                            (fun h => py_eq (ip_field h) (VStr s) = true)).
  - destruct (list_find _ hosts) as [[i h] |] eqn:Hfind; [| reflexivity].
    apply list_find_Some in Hfind. destruct Hfind as (Hi & _ & _).
    unfold getHostCheckStatusForRow.
    rewrite (getSafeHostField_lookup hosts i h "checked" Hi), field_of_checked.
    reflexivity.
  - intros h Hh. rewrite Forall_forall in Htext.
    destruct (Htext h Hh) as [t ->]. symmetry. apply py_eq_text.
Qed.

Lemma lookups_agree_on_text_witness :
  getHostCheckStatusForIp
    [HDict (<[ "ip" := VStr "10.0.0.1" ]> {[ "checked" := VStr "True" ]})]
    (VStr "10.0.0.1") =
  (r ← getRowForIp
         [HDict (<[ "ip" := VStr "10.0.0.1" ]> {[ "checked" := VStr "True" ]})]
         (VStr "10.0.0.1");
   match r with
   | VInt i =>
       getHostCheckStatusForRow
         [HDict (<[ "ip" := VStr "10.0.0.1" ]> {[ "checked" := VStr "True" ]})] i
   | _ => Ok VNone
   end).
Proof.
  apply (lookups_agree_on_text
           [HDict (<[ "ip" := VStr "10.0.0.1" ]> {[ "checked" := VStr "True" ]})]
           "10.0.0.1").
  - repeat constructor.
  - repeat constructor. exists "10.0.0.1". reflexivity.
Defined.

(** X3: the address the sort key reads is the address field access reports
    for a mapping and for a tuple (an empty tuple makes both raise); for a
    list record field access reports [None] while the sort key reads
    position 0. *)
Theorem sort_key_reads_ip_field (hosts : list host) (i : nat) (h : host) :
  hosts !! i = Some h ->
  match h with
  | HDict _ | HTuple _ => ip_of h = getHostIPForRow hosts (Z.of_nat i)
  | HList l =>
      getHostIPForRow hosts (Z.of_nat i) = Ok VNone /\ ip_of h = py_index l 0
  end.
Proof.
  intros Hi. unfold getHostIPForRow.
  rewrite (getSafeHostField_lookup hosts i h "ip" Hi).
  destruct h as [d | t | l]; [reflexivity | reflexivity | split; reflexivity].
Qed.

Lemma sort_key_reads_ip_field_witness :
  getHostIPForRow [HList [VStr "10.0.0.1"]] (Z.of_nat 0) = Ok VNone /\
  ip_of (HList [VStr "10.0.0.1"]) = py_index [VStr "10.0.0.1"] 0.
Proof.
  apply (sort_key_reads_ip_field [HList [VStr "10.0.0.1"]] 0
                                 (HList [VStr "10.0.0.1"])).
  reflexivity.
Defined.

(** X4: after [setHosts], which emits no signal, the table is the one given:
    its row count is the number of records, a pair [(ip, id)] answers the
    row getters with its two positions and no check status, a mapping
    answers them with its entries, and rows past the end are absent. *)
Theorem setHosts_round_trip (m : model) (X : list host) :
  let m' := (setHosts X m).2 in
  (setHosts X m).1 = Ok tt /\
  trace m' = trace m /\
  rowCount (_hosts m') = Z.of_nat (length X) /\
  (forall (i : nat) ip id, X !! i = Some (HTuple [ip; id]) ->
     getHostIPForRow (_hosts m') (Z.of_nat i) = Ok ip /\
     getHostIdForRow (_hosts m') (Z.of_nat i) = Ok id /\
     getHostCheckStatusForRow (_hosts m') (Z.of_nat i) = Ok VNone) /\
  (forall (i : nat) d, X !! i = Some (HDict d) ->
     getHostIPForRow (_hosts m') (Z.of_nat i) = Ok (default VNone (d !! "ip")) /\
     getHostIdForRow (_hosts m') (Z.of_nat i) = Ok (default VNone (d !! "id")) /\
     getHostCheckStatusForRow (_hosts m') (Z.of_nat i) =
       Ok (default VNone (d !! "checked"))) /\
  (forall (r : Z) key, Z.of_nat (length X) <= r ->
     getSafeHostField (_hosts m') r key = Ok VNone).
Proof.
  cbn. split; [reflexivity |]. split; [reflexivity |]. split; [reflexivity |].
  split; [| split].
  - intros i ip id Hi.
    unfold getHostIPForRow, getHostIdForRow, getHostCheckStatusForRow.
    rewrite !(getSafeHostField_lookup X i _ _ Hi). repeat split; reflexivity.
  - intros i d Hi.
    unfold getHostIPForRow, getHostIdForRow, getHostCheckStatusForRow.
    rewrite !(getSafeHostField_lookup X i _ _ Hi). repeat split; reflexivity.
  - intros r key Hr. apply getSafeHostField_out_of_range. right. exact Hr.
Qed.

Lemma setHosts_round_trip_witness :
  getHostIPForRow (_hosts (setHosts [HTuple [VStr "10.0.0.1"; VInt 7]] example_model).2)
                  (Z.of_nat 0) = Ok (VStr "10.0.0.1") /\
  getHostIdForRow (_hosts (setHosts [HTuple [VStr "10.0.0.1"; VInt 7]] example_model).2)
                  (Z.of_nat 0) = Ok (VInt 7) /\
  getHostCheckStatusForRow
    (_hosts (setHosts [HTuple [VStr "10.0.0.1"; VInt 7]] example_model).2)
    (Z.of_nat 0) = Ok VNone.
Proof.
  destruct (setHosts_round_trip example_model [HTuple [VStr "10.0.0.1"; VInt 7]])
    as (_ & _ & _ & Htuple & _).
  apply (Htuple 0%nat (VStr "10.0.0.1") (VInt 7)). reflexivity.
Defined.

(** ** Cells at the edges *)

Lemma field_of_other_Ok (h : host) (key : string) :
  key <> "ip" -> key <> "id" -> exists v, field_of h key = Ok v.
Proof.
  intros Hip Hid. destruct h as [d | t | l]; simpl; eauto.
  apply String.eqb_neq in Hip. apply String.eqb_neq in Hid.
  rewrite Hip, Hid. eauto.
Qed.

Lemma getSafeHostField_other_Ok (hosts : list host) (r : Z) (key : string) :
  key <> "ip" -> key <> "id" -> exists v, getSafeHostField hosts r key = Ok v.
Proof.
  intros Hip Hid. rewrite getSafeHostField_host_at.
  destruct (host_at hosts r) as [h |]; [apply field_of_other_Ok; assumption | eauto].
Qed.

Lemma display_keys_cases (c : Z) :
  c = 3 \/ display_keys c = [] \/ (c <> 3 /\ exists key, display_keys c = [key]).
Proof.
  destruct (Z.eqb_spec c 3) as [-> | H3]; [left; reflexivity | right].
  unfold display_keys.
  repeat match goal with
         | |- context [if ?c =? ?n then _ else _] =>
             destruct (Z.eqb_spec c n);
             [first [ contradiction | right; split; [exact H3 | eexists; reflexivity] ] |]
         end.
  left. reflexivity.
Qed.

(** X5: for a row index outside the table [data] raises nothing: the
    decoration of column 1 is the question-mark icon, the address column
    shows the empty string, the columns of the column-to-field chain show
    [None], the other columns the diagnostic string, and no font is set. *)
Theorem data_out_of_range (hosts : list host) (r c : Z) :
  r < 0 \/ rowCount hosts <= r ->
  data hosts (mkIndex r c) DecorationRole =
    Ok (if c =? 1 then QIcon "./images/question-icon.png" else CNone) /\
  data hosts (mkIndex r c) DisplayRole =
    Ok (CValue (if c =? 3 then VStr ""
                else match display_keys c with
                     | [] => VStr "Not set in view model"
                     | _ => VNone
                     end)) /\
  data hosts (mkIndex r c) FontRole = Ok CNone.
Proof.
  intros Hr.
  assert (forall key, getSafeHostField hosts r key = Ok VNone) as Hnone
    by (intros key; apply getSafeHostField_out_of_range, Hr).
  split; [| split].
  - cbn [data]. unfold decoration. cbn [row column].
    destruct (c =? 1); [| reflexivity]. rewrite Hnone. reflexivity.
  - cbn [data]. destruct (display_keys_cases c) as [-> | [Hnil | [H3 [key Hkey]]]].
    + rewrite (display_address_text hosts r None None) by apply Hnone. reflexivity.
    + rewrite (display_unlisted hosts r c Hnil), Hnil.
      destruct (Z.eqb_spec c 3) as [-> | _]; [discriminate Hnil | reflexivity].
    + rewrite (display_single_field hosts r c key H3 Hkey), Hnone, Hkey.
      destruct (Z.eqb_spec c 3); [contradiction | reflexivity].
  - cbn [data]. unfold font. cbn [row column].
    destruct (c =? 3); [| reflexivity]. rewrite Hnone. reflexivity.
Qed.

Lemma data_out_of_range_witness :
  data example_hosts (mkIndex 3 1) DecorationRole =
    Ok (QIcon "./images/question-icon.png") /\
  data example_hosts (mkIndex 3 1) DisplayRole =
    Ok (CValue (VStr "Not set in view model")) /\
  data example_hosts (mkIndex 3 1) FontRole = Ok CNone.
Proof.
  apply (data_out_of_range example_hosts 3 1). right. unfold rowCount. simpl. lia.
Defined.





Lemma decoration_nontext (hosts : list host) (r : Z) (v : pyval) :
  getSafeHostField hosts r "osMatch" = Ok v -> nontext v -> truthy v = true ->
  decoration hosts (mkIndex r 1) = Raise TypeError.
Proof.
  intros Hfield Hn Ht. unfold decoration. cbn [row column].
  change (1 =? 1) with true. cbv iota. rewrite Hfield. cbn [mbind result_bind].
  rewrite Ht. destruct v; simpl in Hn; try contradiction; reflexivity.
Qed.

Lemma decoration_cases (hosts : list host) (r : Z) :
  exists v, getSafeHostField hosts r "osMatch" = Ok v /\
    ((nontext v /\ truthy v = true /\
      decoration hosts (mkIndex r 1) = Raise TypeError) \/
     (~ (nontext v /\ truthy v = true) /\
      exists c, decoration hosts (mkIndex r 1) = Ok (QIcon (icon_file c)))).
Proof.
  destruct (getSafeHostField_other_Ok hosts r "osMatch") as [v Hv];
    [discriminate | discriminate |].
  exists v. split; [exact Hv |].
  destruct (truthy v) eqn:Ht.
  - destruct v as [| b | n | s].
    + discriminate.
    + left. split; [exact I |]. split; [reflexivity |].
      apply (decoration_nontext hosts r (VBool b) Hv I Ht).
    + left. split; [exact I |]. split; [reflexivity |].
      apply (decoration_nontext hosts r (VInt n) Hv I Ht).
    + right. split; [intros [[] _] |].
      assert (s <> "") as Hne.
      { intros ->. discriminate Ht. }
      destruct (decoration_text hosts r s Hv Hne) as (c & Hc & _). eauto.
  - right. split; [intros (_ & Hf); discriminate |].
    exists Unknown. apply (decoration_empty hosts r v Hv Ht).
Qed.

(** X7: the decoration of column 1 raises exactly when the OS name is a
    non-zero number or [True], which [re.search] refuses with a
    [TypeError]; in every other case, and for every row index, an icon is
    answered. *)
Theorem decoration_raises_iff (hosts : list host) (r : Z) :
  exists v, getSafeHostField hosts r "osMatch" = Ok v /\
    (data hosts (mkIndex r 1) DecorationRole = Raise TypeError <->
     nontext v /\ truthy v = true) /\
    (~ (nontext v /\ truthy v = true) ->
     exists c, data hosts (mkIndex r 1) DecorationRole = Ok (QIcon (icon_file c))).
Proof.
  destruct (decoration_cases hosts r) as (v & Hv & Hcases).
  exists v. split; [exact Hv |]. cbn [data].
  destruct Hcases as [(Hn & Ht & ->) | (Hnot & c & ->)].
  - split; [split; [intros _; split; assumption | reflexivity] |].
    intros Hc. exfalso. apply Hc. split; assumption.
  - split; [split; [discriminate | intros Hc; contradiction] |].
    intros _. exists c. reflexivity.
Qed.

Lemma renderable_fields (hosts : list host) (r : Z) :
  Forall renderable hosts ->
  (exists v, getSafeHostField hosts r "osMatch" = Ok v /\ text_or_absent v) /\
  (exists v, getSafeHostField hosts r "ip" = Ok v /\ text_or_absent v) /\
  (exists v, getSafeHostField hosts r "hostname" = Ok v /\ text_or_absent v) /\
  (forall key, exists v, getSafeHostField hosts r key = Ok v).
Proof.
  intros Hall. rewrite Forall_forall in Hall.
  assert (text_or_absent VNone) as Hnone by (left; reflexivity).
  destruct (host_at hosts r) as [h |] eqn:Hh.
  - pose proof (Hall h (host_at_elem hosts r h Hh)) as Hr.
    assert (forall key, getSafeHostField hosts r key = field_of h key) as Hf
      by (intros key; rewrite getSafeHostField_host_at, Hh; reflexivity).
    rewrite !Hf.
    destruct h as [d | t | l]; simpl in Hr.
    + destruct Hr as (Hos & Hip & Hhn).
      repeat split; try (eexists; split; [reflexivity | assumption]).
      intros key. rewrite Hf. eexists. reflexivity.
    + destruct Hr as (ip & id & rest & -> & Hip).
      repeat split; try (eexists; split; [reflexivity | assumption]).
      intros key. rewrite Hf. simpl.
      destruct (String.eqb key "ip"); [eexists; reflexivity |].
      destruct (String.eqb key "id"); eexists; reflexivity.
    + repeat split; try (eexists; split; [reflexivity | assumption]).
      intros key. rewrite Hf. eexists. reflexivity.
  - assert (forall key, getSafeHostField hosts r key = Ok VNone) as Hf
      by (intros key; rewrite getSafeHostField_host_at, Hh; reflexivity).
    rewrite !Hf.
    repeat split; try (eexists; split; [reflexivity | assumption]).
    intros key. rewrite Hf. eexists. reflexivity.
Qed.

Lemma text_or_absent_text_of (v : pyval) :
  text_or_absent v -> exists o, v = text_of o.
Proof.
  intros [-> | [s ->]]; [exists None | exists (Some s)]; reflexivity.
Qed.

(** X8: on a table of renderable records (tuples with both positions, and
    OS name, ip and hostname that are text or absent) [data] raises
    nothing, whatever the index and the role. *)
Theorem data_total_on_renderable (hosts : list host) (index : QModelIndex)
    (role : ItemDataRole) :
  Forall renderable hosts -> exists c, data hosts index role = Ok c.
Proof.
  intros Hall. destruct index as [r c].
  destruct (renderable_fields hosts r Hall)
    as ((os & Hos & Hosv) & (ip & Hip & Hipv) & (hn & Hhn & Hhnv) & Hany).
  destruct role; cbn [data]; try (eexists; reflexivity).
  - (* DisplayRole *)
    destruct (display_keys_cases c) as [-> | [Hnil | [H3 [key Hkey]]]].
    + destruct (text_or_absent_text_of ip Hipv) as [oi ->].
      destruct (text_or_absent_text_of hn Hhnv) as [oh ->].
      rewrite (display_address_text hosts r oi oh Hip Hhn). eexists. reflexivity.
    + rewrite (display_unlisted hosts r c Hnil). eexists. reflexivity.
    + rewrite (display_single_field hosts r c key H3 Hkey).
      destruct (Hany key) as [v ->]. eexists. reflexivity.
  - (* DecorationRole *)
    unfold decoration. cbn [row column].
    destruct (c =? 1) eqn:Hc; [| eexists; reflexivity].
    apply Z.eqb_eq in Hc. subst c.
    destruct (decoration_cases hosts r) as (v & Hv & Hcases).
    rewrite Hos in Hv. injection Hv as <-.
    destruct Hcases as [(Hn & _) | (_ & k & Hk)].
    + destruct Hosv as [-> | [s ->]]; simpl in Hn; contradiction.
    + unfold decoration in Hk. cbn [row column] in Hk.
      change (1 =? 1) with true in Hk. cbv iota in Hk.
      rewrite Hk. eexists. reflexivity.
  - (* FontRole *)
    unfold font. cbn [row column].
    destruct (c =? 3); [| eexists; reflexivity].
    destruct (Hany "checked") as [v ->]. cbn [mbind result_bind].
    destruct (py_eq v (VStr "True")); eexists; reflexivity.
Qed.

Lemma data_total_on_renderable_witness :
  exists c, data [HTuple [VStr "10.0.0.1"; VInt 7]] (mkIndex 0 3) DisplayRole = Ok c.
Proof.
  apply (data_total_on_renderable [HTuple [VStr "10.0.0.1"; VInt 7]]
                                  (mkIndex 0 3) DisplayRole).
  repeat constructor.
  exists (VStr "10.0.0.1"), (VInt 7), []. split; [reflexivity |].
  right. exists "10.0.0.1". reflexivity.
Defined.

(** ** Sorting by an ordered key *)

Lemma StronglySorted_filter {A : Type} (R : A -> A -> Prop) (P : A -> Prop)
    `{forall x, Decision (P x)} (l : list A) :
  StronglySorted R l -> StronglySorted R (filter P l).
Proof.
  induction 1 as [| x l Hs IH Hx]; [constructor |].
  rewrite filter_cons. destruct (decide (P x)); [| exact IH].
  constructor; [exact IH |].
  rewrite Forall_forall in Hx. apply Forall_forall.
  intros y Hy. apply list_elem_of_filter in Hy. apply Hx, Hy.
Qed.

Section ordered_sort_facts.
Context {A K : Type} `{EqDecision K}.
Variable key : A -> K.
Variable ltb : K -> K -> bool.
Variable le : K -> K -> Prop.
Hypothesis le_trans : forall a b c, le a b -> le b c -> le a c.
Hypothesis le_antisym : forall a b, le a b -> le b a -> a = b.
Hypothesis ltb_le : forall a b, ltb a b = true -> le a b.
Hypothesis ltb_ge : forall a b, ltb a b = false -> le b a.
Hypothesis ltb_irrefl : forall a, ltb a a = false.

Lemma ordered_insert_by (x : A) (l : list A) :
  StronglySorted (ordered key le false) l ->
  StronglySorted (ordered key le false) (insert_by (lt_key key ltb) x l).
Proof.
  induction l as [| y l IH]; cbn [insert_by]; intros Hs.
  - repeat constructor.
  - apply StronglySorted_inv in Hs. destruct Hs as [Hs Hy].
    unfold lt_key at 1. destruct (ltb (key y) (key x)) eqn:Hlt.
    + constructor; [apply IH; exact Hs |].
      rewrite insert_by_Permutation. constructor; [| exact Hy].
      apply ltb_le, Hlt.
    + constructor; [constructor; assumption |].
      constructor; [apply ltb_ge, Hlt |].
      eapply Forall_impl; [exact Hy |].
      intros z Hz. eapply le_trans; [apply ltb_ge, Hlt | exact Hz].
Qed.

Lemma ordered_sort_by (l : list A) :
  StronglySorted (ordered key le false) (sort_by (lt_key key ltb) l).
Proof.
  induction l as [| x l IH]; cbn [sort_by]; [constructor |].
  apply ordered_insert_by, IH.
Qed.

Lemma ordered_sorted_by (rv : bool) (l : list A) :
  StronglySorted (ordered key le rv) (sorted_by (lt_key key ltb) rv l).
Proof.
  unfold sorted_by. destruct rv; [| apply ordered_sort_by].
  apply (StronglySorted_reverse (ordered key le false)), ordered_sort_by.
Qed.

Lemma stable_insert_by (k : K) (x : A) (l : list A) :
  filter (fun a => key a = k) (insert_by (lt_key key ltb) x l) =
  filter (fun a => key a = k) (x :: l).
Proof.
  induction l as [| y l IH]; cbn [insert_by]; [reflexivity |].
  unfold lt_key at 1. destruct (ltb (key y) (key x)) eqn:Hlt; [| reflexivity].
  rewrite (filter_cons _ y), IH, !filter_cons.
  destruct (decide (key x = k)) as [Hx | Hx], (decide (key y = k)) as [Hy | Hy];
    try reflexivity.
  rewrite Hx, Hy, ltb_irrefl in Hlt. discriminate.
Qed.

Lemma stable_sort_by (k : K) (l : list A) :
  filter (fun a => key a = k) (sort_by (lt_key key ltb) l) =
  filter (fun a => key a = k) l.
Proof.
  induction l as [| x l IH]; cbn [sort_by]; [reflexivity |].
  rewrite stable_insert_by, !filter_cons, IH. reflexivity.
Qed.

Lemma stable_sorted_by (k : K) (rv : bool) (l : list A) :
  filter (fun a => key a = k) (sorted_by (lt_key key ltb) rv l) =
  filter (fun a => key a = k) l.
Proof.
  unfold sorted_by. destruct rv; [| apply stable_sort_by].
  rewrite filter_reverse, stable_sort_by, filter_reverse.
  apply reverse_involutive.
Qed.

Lemma ordered_unique (rv : bool) (l1 l2 : list A) :
  StronglySorted (ordered key le rv) l1 ->
  StronglySorted (ordered key le rv) l2 ->
  (forall k, filter (fun a => key a = k) l1 = filter (fun a => key a = k) l2) ->
  l1 = l2.
Proof.
  revert l2. induction l1 as [| x l1 IH]; intros l2 Hs1 Hs2 Hf.
  - destruct l2 as [| y l2]; [reflexivity |].
    specialize (Hf (key y)). rewrite filter_nil, filter_cons_True in Hf by reflexivity.
    discriminate.
  - destruct l2 as [| y l2].
    { specialize (Hf (key x)). rewrite filter_nil, filter_cons_True in Hf by reflexivity.
      discriminate. }
    apply StronglySorted_inv in Hs1. destruct Hs1 as [Hs1 Hx].
    apply StronglySorted_inv in Hs2. destruct Hs2 as [Hs2 Hy].
    rewrite Forall_forall in Hx. rewrite Forall_forall in Hy.
    assert (y ∈ x :: l1) as Hy1.
    { assert (y ∈ filter (fun a => key a = key y) (x :: l1)) as Hin.
      { rewrite Hf, filter_cons_True by reflexivity. constructor. }
      apply list_elem_of_filter in Hin. exact (proj2 Hin). }
    assert (x ∈ y :: l2) as Hx2.
    { assert (x ∈ filter (fun a => key a = key x) (y :: l2)) as Hin.
      { rewrite <- Hf, filter_cons_True by reflexivity. constructor. }
      apply list_elem_of_filter in Hin. exact (proj2 Hin). }
    assert (key y = key x) as Hk.
    { apply elem_of_cons in Hy1. apply elem_of_cons in Hx2.
      destruct Hy1 as [-> | Hy1]; [reflexivity |].
      destruct Hx2 as [-> | Hx2]; [reflexivity |].
      specialize (Hx y Hy1). specialize (Hy x Hx2).
      unfold ordered in Hx, Hy. destruct rv; apply le_antisym; assumption. }
    pose proof (Hf (key x)) as Hfx.
    rewrite !filter_cons_True in Hfx by (reflexivity || exact Hk).
    injection Hfx as -> Hfx.
    f_equal. apply IH; [exact Hs1 | exact Hs2 |].
    intros k. specialize (Hf k). rewrite !filter_cons in Hf.
    destruct (decide (key y = k)); [injection Hf as Hf |]; exact Hf.
Qed.

(** Sorting a sorted list again, in either direction, gives what sorting
    the original list in that direction gives. *)
Lemma sorted_by_again (rv1 rv2 : bool) (l : list A) :
  sorted_by (lt_key key ltb) rv2 (sorted_by (lt_key key ltb) rv1 l) =
  sorted_by (lt_key key ltb) rv2 l.
Proof.
  apply (ordered_unique rv2); try apply ordered_sorted_by.
  intros k. rewrite !stable_sorted_by. reflexivity.
Qed.

Lemma sorted_by_keys_reverse (l : list A) :
  key <$> sorted_by (lt_key key ltb) true l =
  reverse (key <$> sorted_by (lt_key key ltb) false l).
Proof.
  assert (AntiSymm (=) (flip le)) as Hanti.
  { intros a b Hab Hba. apply le_antisym; assumption. }
  apply (StronglySorted_unique (flip le)).
  - apply (StronglySorted_fmap key (ordered key le true) (flip le)).
    + intros a b Hab. exact Hab.
    + apply ordered_sorted_by.
  - apply StronglySorted_reverse.
    apply (StronglySorted_fmap key (ordered key le false) le).
    + intros a b Hab. exact Hab.
    + apply ordered_sorted_by.
  - rewrite reverse_Permutation, !sorted_by_Permutation. reflexivity.
Qed.

Lemma filter_key_NoDup (k : K) (l : list A) :
  NoDup (key <$> l) ->
  reverse (filter (fun a => key a = k) l) = filter (fun a => key a = k) l.
Proof.
  induction l as [| x l IH]; [reflexivity |].
  rewrite fmap_cons, NoDup_cons. intros [Hx Hnd].
  rewrite filter_cons. destruct (decide (key x = k)) as [Hk | Hk]; [| apply IH, Hnd].
  assert (filter (fun a => key a = k) l = []) as ->; [| reflexivity].
  destruct (filter (fun a => key a = k) l) as [| y f] eqn:Hf; [reflexivity |].
  exfalso. apply Hx.
  assert (y ∈ filter (fun a => key a = k) l) as Hy by (rewrite Hf; constructor).
  apply list_elem_of_filter in Hy. destruct Hy as [Hyk Hy].
  apply list_elem_of_fmap. exists y. split; [congruence | exact Hy].
Qed.

(** With pairwise distinct keys the descending order is the ascending
    order read backwards. *)
Lemma sorted_by_distinct_reverse (l : list A) :
  NoDup (key <$> l) ->
  sorted_by (lt_key key ltb) true l = reverse (sorted_by (lt_key key ltb) false l).
Proof.
  intros Hnd. apply (ordered_unique true).
  - apply ordered_sorted_by.
  - apply (StronglySorted_reverse (ordered key le false)), ordered_sorted_by.
  - intros k. rewrite filter_reverse, !stable_sorted_by.
    symmetry. apply filter_key_NoDup, Hnd.
Qed.
End ordered_sort_facts.

Lemma string_ltb_le (a b : string) : String.ltb a b = true -> String.le a b.
Proof.
  unfold String.ltb, String.le, String.leb.
  destruct (String.compare a b); [discriminate | intros _; exact I | discriminate].
Qed.

Lemma string_ltb_ge (a b : string) : String.ltb a b = false -> String.le b a.
Proof.
  unfold String.ltb, String.le, String.leb. rewrite (String.compare_antisym b a).
  destruct (String.compare a b); simpl; [intros _; exact I | discriminate | intros _; exact I].
Qed.

Lemma string_ltb_irrefl (a : string) : String.ltb a a = false.
Proof.
  unfold String.ltb. pose proof (String.compare_antisym a a) as Hanti.
  destruct (String.compare a a); [reflexivity | discriminate | reflexivity].
Qed.

Lemma string_le_trans (a b c : string) : String.le a b -> String.le b c -> String.le a c.
Proof. apply (@transitivity _ String.le _). Qed.

Lemma string_le_antisym (a b : string) : String.le a b -> String.le b a -> a = b.
Proof. apply (@anti_symm _ (=) String.le _). Qed.

(** ** Sorting: when the address sort raises *)

Lemma ip_of_raise (h : host) (e : exn) : ip_of h = Raise e -> e = IndexError.
Proof.
  destruct h as [d | [| a t] | [| a l]]; simpl; unfold py_index; simpl;
    congruence.
Qed.

Lemma ip_readable_iff (h : host) :
  ip_readable h <-> h <> HTuple [] /\ h <> HList [].
Proof.
  unfold ip_readable. destruct h as [d | [| a t] | [| a l]]; simpl;
    unfold py_index; simpl; split;
    try (intros _; split; discriminate);
    try (intros _; eexists; reflexivity);
    try (intros [v Hv]; discriminate);
    intros [H1 H2]; congruence.
Qed.

Lemma for_each_ip_key_IndexError (IP2Int : pyval -> result (option Z))
    (hs : list host) (m m' : model) (e : exn) :
  for_each (ip_key IP2Int) hs m = (Raise e, m') -> e = IndexError.
Proof.
  revert m m'. induction hs as [| h hs IH]; intros m m'; cbn [for_each].
  - discriminate.
  - rewrite bind_run, ip_key_run.
    destruct (ip_of h) as [ip | e0] eqn:Hip.
    + rewrite bind_run.
      destruct (for_each (ip_key IP2Int) hs _) as [[ks | e1] m1] eqn:Hrun.
      * discriminate.
      * intros [= <- _]. eapply IH. exact Hrun.
    + intros [= <- _]. eapply ip_of_raise. exact Hip.
Qed.

Lemma hosts_sort_ip_IndexError (IP2Int : pyval -> result (option Z)) (rv : bool)
    (m m' : model) (e : exn) :
  hosts_sort (ip_key IP2Int) rv m = (Raise e, m') -> e = IndexError.
Proof.
  destruct (hosts_sort_ip_run IP2Int rv m) as [[_ Hrun] | [_ (e0 & logs & Hrun & _)]].
  - rewrite Hrun. discriminate.
  - unfold hosts_sort in *. rewrite bind_run in *. cbn [get_hosts] in *.
    rewrite bind_run in *.
    destruct (for_each (ip_key IP2Int) (_hosts m) m) as [[ks | e1] m1] eqn:Hfor.
    + rewrite bind_run in Hrun. unfold lift in Hrun.
      destruct (for_each_ip_key_run IP2Int (_hosts m) m)
        as [[_ Hok] | [_ (e2 & logs2 & Hbad & _)]]; rewrite Hfor in *.
      * injection Hok as -> ->.
        rewrite (zip_keys (fun h => VInt (ip_value IP2Int h))) in Hrun.
        rewrite list_sort_pure in Hrun by apply comparable_int_keys.
        discriminate Hrun.
      * discriminate Hbad.
    + intros [= <- _]. eapply for_each_ip_key_IndexError. exact Hfor.
Qed.

(** X9: sorting by column 0 or 3 returns exactly when every record is a
    mapping or has a position 0.  On a table with an empty tuple or an empty
    list it raises [IndexError]: the begin notification and the log entries
    written so far are out, the table is as it was, and the end
    notification is not emitted. *)
Theorem sort_address_raises_iff (IP2Int : pyval -> result (option Z)) (Ncol : Z)
    (order : SortOrder) (m : model) :
  Ncol = 0 \/ Ncol = 3 ->
  ((sort IP2Int Ncol order m).1 = Ok tt <-> Forall ip_readable (_hosts m)) /\
  (forall h, ip_readable h <-> h <> HTuple [] /\ h <> HList []) /\
  (~ Forall ip_readable (_hosts m) ->
   exists logs,
     sort IP2Int Ncol order m =
       (Raise IndexError,
        traced m (Emitted layoutAboutToBeChanged (_hosts m) :: logs)) /\
     Forall is_log logs).
Proof.
  intros Hcol.
  assert (~ Forall ip_readable (_hosts m) ->
          exists logs,
            sort IP2Int Ncol order m =
              (Raise IndexError,
               traced m (Emitted layoutAboutToBeChanged (_hosts m) :: logs)) /\
            Forall is_log logs) as Hraise.
  { intros Hnot. unfold sort. rewrite bind_run. cbn [emit].
    assert ((Ncol =? 0) || (Ncol =? 3) = true) as ->.
    { apply orb_true_iff. rewrite !Z.eqb_eq. exact Hcol. }
    rewrite bind_run.
    match goal with |- context [hosts_sort _ _ ?m1] => set (m' := m1) end.
    destruct (hosts_sort_ip_run IP2Int (is_descending order) m')
      as [[Hall _] | [_ (e & logs & Hrun & Hlogs)]]; [contradiction |].
    pose proof (hosts_sort_ip_IndexError _ _ _ _ _ Hrun) as ->.
    rewrite Hrun. exists logs. split; [| exact Hlogs].
    subst m'. unfold traced. cbn [_hosts trace]. rewrite <- app_assoc. reflexivity. }
  split; [| split; [apply ip_readable_iff | exact Hraise]].
  split.
  - intros Hok.
    destruct (hosts_sort_ip_run IP2Int false m) as [[Hall _] | [Hnot _]];
      [exact Hall |].
    destruct (Hraise Hnot) as (logs & Hrun & _). rewrite Hrun in Hok. discriminate.
  - intros Hall. rewrite (sort_ip_run IP2Int Ncol order m Hcol Hall). reflexivity.
Qed.

Lemma sort_address_raises_iff_witness :
  (sort IP2Int_dotted_quad 0 AscendingOrder example_model).1 = Ok tt <->
  Forall ip_readable (_hosts example_model).
Proof.
  apply (sort_address_raises_iff IP2Int_dotted_quad 0 AscendingOrder example_model).
  left. reflexivity.
Defined.

(** ** Sorting: composition *)

Lemma sorted_by_int_again {A : Type} (key : A -> Z) (rv1 rv2 : bool) (l : list A) :
  sorted_by (by_key key) rv2 (sorted_by (by_key key) rv1 l) =
  sorted_by (by_key key) rv2 l.
Proof.
  apply (sorted_by_again key Z.ltb Z.le).
  - intros a b c. apply Z.le_trans.
  - intros a b. apply Z.le_antisymm.
  - intros a b Hlt. apply Z.ltb_lt in Hlt. lia.
  - intros a b Hge. apply Z.ltb_ge in Hge. exact Hge.
  - apply Z.ltb_irrefl.
Qed.

(** X10: an address sort that follows another address sort ends with the table
    a single sort would have given: sorting twice the same way changes
    nothing the second time, and a change of direction does not depend on
    the direction before it. *)
Theorem sort_address_again (IP2Int : pyval -> result (option Z)) (c1 c2 : Z)
    (o1 o2 : SortOrder) (m : model) :
  c1 = 0 \/ c1 = 3 -> c2 = 0 \/ c2 = 3 ->
  Forall ip_readable (_hosts m) ->
  (sort IP2Int c2 o2 (sort IP2Int c1 o1 m).2).1 = Ok tt /\
  _hosts (sort IP2Int c2 o2 (sort IP2Int c1 o1 m).2).2 =
    _hosts (sort IP2Int c2 o2 m).2.
Proof.
  intros Hc1 Hc2 Hall.
  rewrite (sort_ip_run IP2Int c1 o1 m Hc1 Hall). cbn [snd].
  rewrite (sort_ip_run IP2Int c2 o2 m Hc2 Hall). cbn [snd _hosts].
  rewrite sort_ip_run.
  - cbn [fst snd _hosts]. split; [reflexivity |]. apply sorted_by_int_again.
  - exact Hc2.
  - cbn [_hosts]. rewrite sorted_by_Permutation. exact Hall.
Qed.

Lemma sort_address_again_witness :
  _hosts (sort IP2Int_dotted_quad 0 AscendingOrder
            (sort IP2Int_dotted_quad 3 DescendingOrder example_model).2).2 =
  _hosts (sort IP2Int_dotted_quad 0 AscendingOrder example_model).2.
Proof.
  apply (sort_address_again IP2Int_dotted_quad 3 0 DescendingOrder AscendingOrder
                            example_model).
  - right. reflexivity.
  - left. reflexivity.
  - repeat constructor; eexists; reflexivity.
Defined.

(** X11: the keys of the descending address sort are the keys of the ascending
    one read backwards; when no two records have the same key, the tables
    themselves are reverses of each other. *)
Theorem sort_descending_reverses (IP2Int : pyval -> result (option Z)) (Ncol : Z)
    (m : model) :
  Ncol = 0 \/ Ncol = 3 ->
  Forall ip_readable (_hosts m) ->
  ip_value IP2Int <$> _hosts (sort IP2Int Ncol DescendingOrder m).2 =
    reverse (ip_value IP2Int <$> _hosts (sort IP2Int Ncol AscendingOrder m).2) /\
  (NoDup (ip_value IP2Int <$> _hosts m) ->
   _hosts (sort IP2Int Ncol DescendingOrder m).2 =
     reverse (_hosts (sort IP2Int Ncol AscendingOrder m).2)).
Proof.
  intros Hcol Hall.
  rewrite !(sort_ip_run IP2Int Ncol _ m Hcol Hall). cbn [snd _hosts is_descending].
  assert (forall a b c : Z, a <= b -> b <= c -> a <= c) as Htrans
    by (intros; lia).
  assert (forall a b : Z, a <= b -> b <= a -> a = b) as Hanti by (intros; lia).
  assert (forall a b : Z, (a <? b) = true -> a <= b) as Hlt
    by (intros a b H; apply Z.ltb_lt in H; lia).
  assert (forall a b : Z, (a <? b) = false -> b <= a) as Hge
    by (intros a b H; apply Z.ltb_ge in H; exact H).
  split.
  - apply (sorted_by_keys_reverse (ip_value IP2Int) Z.ltb Z.le);
      auto using Z.ltb_irrefl.
  - intros Hnd.
    apply (sorted_by_distinct_reverse (ip_value IP2Int) Z.ltb Z.le);
      auto using Z.ltb_irrefl.
Qed.

Lemma sort_descending_reverses_witness :
  ip_value IP2Int_dotted_quad <$>
    _hosts (sort IP2Int_dotted_quad 0 DescendingOrder example_model).2 =
  reverse (ip_value IP2Int_dotted_quad <$>
             _hosts (sort IP2Int_dotted_quad 0 AscendingOrder example_model).2).
Proof.
  apply (sort_descending_reverses IP2Int_dotted_quad 0 example_model).
  - left. reflexivity.
  - repeat constructor; eexists; reflexivity.
Defined.

(** ** Sorting by OS name *)

Lemma insert_by_fmap_on {A B : Type} (f : A -> B) (lt1 : A -> A -> bool)
    (lt2 : B -> B -> bool) (x : A) (l : list A) :
  (forall b, b ∈ l -> lt2 (f b) (f x) = lt1 b x) ->
  insert_by lt2 (f x) (f <$> l) = f <$> insert_by lt1 x l.
Proof.
  induction l as [| y l IH]; intros Hlt; [reflexivity |].
  rewrite fmap_cons. cbn [insert_by]. rewrite Hlt by constructor.
  destruct (lt1 y x); [| reflexivity].
  rewrite IH; [reflexivity |]. intros b Hb. apply Hlt. constructor. exact Hb.
Qed.

Lemma sort_by_fmap_on {A B : Type} (f : A -> B) (lt1 : A -> A -> bool)
    (lt2 : B -> B -> bool) (l : list A) :
  (forall a b, a ∈ l -> b ∈ l -> lt2 (f a) (f b) = lt1 a b) ->
  sort_by lt2 (f <$> l) = f <$> sort_by lt1 l.
Proof.
  induction l as [| x l IH]; intros Hlt; [reflexivity |].
  rewrite fmap_cons. cbn [sort_by]. rewrite IH.
  - apply insert_by_fmap_on. intros b Hb. rewrite sort_by_Permutation in Hb.
    apply Hlt; [constructor; exact Hb | constructor].
  - intros a b Ha Hb. apply Hlt; constructor; assumption.
Qed.

Lemma sorted_by_fmap_on {A B : Type} (f : A -> B) (lt1 : A -> A -> bool)
    (lt2 : B -> B -> bool) (rv : bool) (l : list A) :
  (forall a b, a ∈ l -> b ∈ l -> lt2 (f a) (f b) = lt1 a b) ->
  sorted_by lt2 rv (f <$> l) = f <$> sorted_by lt1 rv l.
Proof.
  intros Hlt. unfold sorted_by. destruct rv; [| apply sort_by_fmap_on, Hlt].
  rewrite <- fmap_reverse, (sort_by_fmap_on f lt1 lt2).
  - apply eq_sym, fmap_reverse.
  - intros a b Ha Hb. rewrite elem_of_reverse in Ha, Hb. apply Hlt; assumption.
Qed.

Lemma os_textual_key (h : host) : os_textual h -> os_key h = VStr (os_text h).
Proof. intros [s Hs]. unfold os_text. rewrite Hs. reflexivity. Qed.

Lemma sort_os_run (IP2Int : pyval -> result (option Z)) (order : SortOrder)
    (m : model) :
  Forall os_textual (_hosts m) ->
  sort IP2Int 1 order m =
    (Ok tt,
     {| _hosts := sorted_by (lt_key os_text String.ltb) (is_descending order)
                            (_hosts m);
        trace := trace m ++
                 [Emitted layoutAboutToBeChanged (_hosts m);
                  Emitted layoutChanged
                    (sorted_by (lt_key os_text String.ltb) (is_descending order)
                               (_hosts m))] |}).
Proof.
  intros Hall. unfold sort. rewrite bind_run. cbn [emit].
  change ((1 =? 0) || (1 =? 3)) with false. change (1 =? 1) with true.
  cbv iota. rewrite sortByOS_run. cbn [_hosts trace].
  rewrite list_sort_pure by (apply comparable_text_keys, Hall).
  rewrite (sorted_by_fmap_on (fun h => (os_key h, h))
                             (lt_key os_text String.ltb) key_ltb).
  - rewrite snd_keys, <- app_assoc. reflexivity.
  - intros a b Ha Hb. rewrite Forall_forall in Hall.
    unfold key_ltb, lt_key. cbn [fst].
    rewrite (os_textual_key a (Hall a Ha)), (os_textual_key b (Hall b Hb)).
    reflexivity.
Qed.

(** X12: sorting by column 1, on a table whose OS names are text or absent,
    returns with the records in the lexicographic order of their OS names
    (an absent name counting as the empty text), reversed for a descending
    sort; the records of one OS name keep their order. *)
Theorem sort_by_os (IP2Int : pyval -> result (option Z)) (order : SortOrder)
    (m : model) :
  Forall os_textual (_hosts m) ->
  exists hosts' : list host,
    sort IP2Int 1 order m =
      (Ok tt,
       {| _hosts := hosts';
          trace := trace m ++
                   [Emitted layoutAboutToBeChanged (_hosts m);
                    Emitted layoutChanged hosts'] |}) /\
    StronglySorted (ordered os_text String.le (is_descending order)) hosts' /\
    (forall k, filter (fun h => os_text h = k) hosts' =
               filter (fun h => os_text h = k) (_hosts m)) /\
    (forall h, h ∈ _hosts m -> os_key h = VStr (os_text h)).
Proof.
  intros Hall. eexists. split; [apply sort_os_run, Hall |].
  split; [| split].
  - apply (ordered_sorted_by os_text String.ltb String.le
             string_le_trans string_ltb_le string_ltb_ge).
  - intros k. apply stable_sorted_by. apply string_ltb_irrefl.
  - intros h Hh. rewrite Forall_forall in Hall. apply os_textual_key, Hall, Hh.
Qed.

Lemma sort_by_os_witness :
  exists hosts' : list host,
    _hosts (sort IP2Int_dotted_quad 1 DescendingOrder
              {| _hosts := [HDict {[ "osMatch" := VStr "Linux 5.4" ]};
                            HTuple [VStr "10.0.0.1"; VInt 7];
                            HDict {[ "osMatch" := VStr "Windows 10" ]}];
                 trace := [] |}).2 = hosts' /\
    StronglySorted (ordered os_text String.le true) hosts'.
Proof.
  destruct (sort_by_os IP2Int_dotted_quad DescendingOrder
              {| _hosts := [HDict {[ "osMatch" := VStr "Linux 5.4" ]};
                            HTuple [VStr "10.0.0.1"; VInt 7];
                            HDict {[ "osMatch" := VStr "Windows 10" ]}];
                 trace := [] |})
    as (hosts' & Hrun & Hsorted & _).
  - repeat constructor; eexists; reflexivity.
  - exists hosts'. rewrite Hrun. split; [reflexivity | exact Hsorted].
Defined.

(** X13: sorting by OS name and then by address gives a two-key order: the
    table is in address order, and the records of each address key are in
    OS-name order among themselves, because the address sort is stable. *)
Theorem sort_os_then_address (IP2Int : pyval -> result (option Z)) (Ncol : Z)
    (o1 o2 : SortOrder) (m : model) :
  Ncol = 0 \/ Ncol = 3 ->
  Forall os_textual (_hosts m) ->
  Forall ip_readable (_hosts m) ->
  let m2 := (sort IP2Int Ncol o2 (sort IP2Int 1 o1 m).2).2 in
  (sort IP2Int Ncol o2 (sort IP2Int 1 o1 m).2).1 = Ok tt /\
  StronglySorted (in_order (ip_value IP2Int) (is_descending o2)) (_hosts m2) /\
  (forall k,
     StronglySorted (ordered os_text String.le (is_descending o1))
                    (filter (fun h => ip_value IP2Int h = k) (_hosts m2))).
Proof.
  intros Hcol Hos Hip.
  rewrite (sort_os_run IP2Int o1 m Hos). cbn [snd].
  rewrite sort_ip_run.
  - cbn [fst snd _hosts]. split; [reflexivity |]. split.
    + apply sorted_by_in_order.
    + intros k. rewrite sorted_by_stable.
      apply StronglySorted_filter.
      apply (ordered_sorted_by os_text String.ltb String.le
               string_le_trans string_ltb_le string_ltb_ge).
  - exact Hcol.
  - cbn [_hosts]. rewrite sorted_by_Permutation. exact Hip.
Qed.

Lemma sort_os_then_address_witness :
  StronglySorted (in_order (ip_value IP2Int_dotted_quad) false)
    (_hosts (sort IP2Int_dotted_quad 0 AscendingOrder
               (sort IP2Int_dotted_quad 1 AscendingOrder example_model).2).2).
Proof.
  apply (sort_os_then_address IP2Int_dotted_quad 0 AscendingOrder AscendingOrder
                              example_model).
  - left. reflexivity.
  - repeat constructor; eexists; reflexivity.
  - repeat constructor; eexists; reflexivity.
Defined.

(** ** Sorting and lookups *)

(** X14: sorting changes neither the row count nor whether an ip is found:
    whatever the column and the direction, and also when the sort raises,
    [getRowForIp] finds a row after the sort exactly when it found one
    before. *)
Theorem sort_keeps_lookups (IP2Int : pyval -> result (option Z)) (Ncol : Z)
    (order : SortOrder) (m : model) (q : pyval) :
  Forall two_or_more (_hosts m) ->
  rowCount (_hosts (sort IP2Int Ncol order m).2) = rowCount (_hosts m) /\
  (getRowForIp (_hosts (sort IP2Int Ncol order m).2) q = Ok VNone <->
   getRowForIp (_hosts m) q = Ok VNone).
Proof.
  intros Hall.
  destruct (sort_run IP2Int Ncol order m) as (r & hosts' & logs & -> & Hperm & _).
  cbn [snd _hosts]. split.
  - unfold rowCount. rewrite Hperm. reflexivity.
  - rewrite !getRowForIp_None_iff.
    + rewrite Hperm. reflexivity.
    + exact Hall.
    + rewrite Hperm. exact Hall.
Qed.

Lemma sort_keeps_lookups_witness :
  rowCount (_hosts (sort IP2Int_dotted_quad 1 AscendingOrder example_model).2) =
    rowCount (_hosts example_model) /\
  (getRowForIp (_hosts (sort IP2Int_dotted_quad 1 AscendingOrder example_model).2)
               (VStr "10.0.0.2") = Ok VNone <->
   getRowForIp (_hosts example_model) (VStr "10.0.0.2") = Ok VNone).
Proof.
  apply (sort_keeps_lookups IP2Int_dotted_quad 1 AscendingOrder example_model
                            (VStr "10.0.0.2")).
  repeat constructor.
Defined.

(** ** The table as a shared list object *)

Lemma shared_bind_run {A B : Type} (c : Shared A) (k : A -> Shared B) (s : pystate) :
  (c ≫= k) s =
  match c s with
  | (Ok a, s') => k a s'
  | (Raise e, s') => (Raise e, s')
  end.
Proof. reflexivity. Qed.

Lemma model_eta (m : model) : {| _hosts := _hosts m; trace := trace m |} = m.
Proof. destruct m; reflexivity. Qed.

Lemma reading_emit (sg : signal) (s : pystate) :
  reading (emit sg) s =
  (Ok tt, {| heap := heap s; self_hosts := self_hosts s;
             emitted := emitted s ++ [Emitted sg (table s)] |}).
Proof. reflexivity. Qed.

Lemma view_reading_emit (sg : signal) (s : pystate) :
  view (reading (emit sg) s).2 = (emit sg (view s)).2.
Proof. reflexivity. Qed.

Lemma view_in_place {A : Type} (c : M A) (s : pystate) :
  (in_place c s).1 = (c (view s)).1 /\ view (in_place c s).2 = (c (view s)).2.
Proof.
  unfold in_place. destruct (c (view s)) as [r m']. cbn [fst snd].
  split; [reflexivity |]. unfold view, table. cbn [heap self_hosts emitted].
  rewrite lookup_insert_eq. cbn [default]. apply model_eta.
Qed.

Lemma sortByOS_raise_keeps (order : SortOrder) (m m' : model) (e : exn) :
  sortByOS order m = (Raise e, m') -> m' = m.
Proof.
  rewrite sortByOS_run. destruct (list_sort _ _); [discriminate |].
  intros [= _ <-]. reflexivity.
Qed.

Lemma view_rebinding_sortByOS (order : SortOrder) (s : pystate) :
  (rebinding (sortByOS order) s).1 = (sortByOS order (view s)).1 /\
  view (rebinding (sortByOS order) s).2 = (sortByOS order (view s)).2.
Proof.
  unfold rebinding. destruct (sortByOS order (view s)) as [[[] | e] m'] eqn:Hrun;
    cbn [fst snd]; (split; [reflexivity |]).
  - unfold view, table. cbn [heap self_hosts emitted].
    rewrite lookup_insert_eq. cbn [default]. apply model_eta.
  - apply sortByOS_raise_keeps in Hrun. subst m'. reflexivity.
Qed.

(** The run of [sort] on the shared list is the run of [sort] on the
    table it refers to. *)
Lemma sort_shared_view (IP2Int : pyval -> result (option Z)) (Ncol : Z)
    (order : SortOrder) (s : pystate) :
  (sort_shared IP2Int Ncol order s).1 = (sort IP2Int Ncol order (view s)).1 /\
  view (sort_shared IP2Int Ncol order s).2 = (sort IP2Int Ncol order (view s)).2.
Proof.
  unfold sort_shared, sort. rewrite shared_bind_run, bind_run, reading_emit.
  cbn [emit].
  set (s1 := {| heap := heap s; self_hosts := self_hosts s;
                emitted := emitted s ++ [Emitted layoutAboutToBeChanged (table s)] |}).
  change {| _hosts := _hosts (view s);
            trace := trace (view s) ++
                     [Emitted layoutAboutToBeChanged (_hosts (view s))] |}
    with (view s1).
  destruct ((Ncol =? 0) || (Ncol =? 3)).
  - rewrite shared_bind_run, bind_run.
    destruct (view_in_place (hosts_sort (ip_key IP2Int) (is_descending order)) s1)
      as [Hr Hv].
    destruct (in_place _ s1) as [r1 s2]. cbn [fst snd] in Hr, Hv.
    destruct (hosts_sort _ _ (view s1)) as [r2 m2]. cbn [fst snd] in Hr, Hv.
    subst r2 m2. destruct r1 as [[] | e]; [| split; reflexivity].
    split; [reflexivity | apply view_reading_emit].
  - destruct (Ncol =? 1).
    + apply view_rebinding_sortByOS.
    + split; [reflexivity | apply view_reading_emit].
Qed.

Lemma sort_shared_shape (IP2Int : pyval -> result (option Z)) (Ncol : Z)
    (order : SortOrder) (s : pystate) :
  ((Ncol = 0 \/ Ncol = 3) /\
   self_hosts (sort_shared IP2Int Ncol order s).2 = self_hosts s /\
   exists x, heap (sort_shared IP2Int Ncol order s).2 =
             <[self_hosts s := x]> (heap s)) \/
  (Ncol = 1 /\
   (((sort_shared IP2Int Ncol order s).1 = Ok tt /\
     self_hosts (sort_shared IP2Int Ncol order s).2 = fresh (dom (heap s)) /\
     exists x, heap (sort_shared IP2Int Ncol order s).2 =
               <[fresh (dom (heap s)) := x]> (heap s)) \/
    ((exists e, (sort_shared IP2Int Ncol order s).1 = Raise e) /\
     self_hosts (sort_shared IP2Int Ncol order s).2 = self_hosts s /\
     heap (sort_shared IP2Int Ncol order s).2 = heap s))) \/
  (Ncol <> 0 /\ Ncol <> 1 /\ Ncol <> 3 /\
   self_hosts (sort_shared IP2Int Ncol order s).2 = self_hosts s /\
   heap (sort_shared IP2Int Ncol order s).2 = heap s).
Proof.
  unfold sort_shared. rewrite shared_bind_run, reading_emit.
  set (s1 := {| heap := heap s; self_hosts := self_hosts s;
                emitted := emitted s ++ [Emitted layoutAboutToBeChanged (table s)] |}).
  destruct (Z.eqb_spec Ncol 0) as [H0 | H0]; cbn [orb];
    [| destruct (Z.eqb_spec Ncol 3) as [H3 | H3]].
  1, 2: left; split; [auto |];
    rewrite shared_bind_run; unfold in_place;
    destruct (hosts_sort _ _ (view s1)) as [[[] | e] m'];
    cbn [fst snd heap self_hosts]; (split; [reflexivity | eexists; reflexivity]).
  destruct (Z.eqb_spec Ncol 1) as [H1 | H1].
  - right. left. split; [exact H1 |]. unfold rebinding.
    destruct (sortByOS order (view s1)) as [[[] | e] m'];
      cbn [fst snd heap self_hosts].
    + left. split; [reflexivity |]. split; [reflexivity | eexists; reflexivity].
    + right. split; [eexists; reflexivity |]. split; reflexivity.
  - right. right. repeat (split; [assumption |]). split; reflexivity.
Qed.

(** X15: the address sort reorders the list object the model was given, so
    that whoever else holds that list sees the new order; the OS sort
    leaves that list as it was and gives the model a new list of its own;
    the other columns change no list.  No sort touches any other list. *)
Theorem sort_shared_aliasing (IP2Int : pyval -> result (option Z)) (Ncol : Z)
    (order : SortOrder) (s : pystate) (l : list host) :
  heap s !! self_hosts s = Some l ->
  (Ncol = 0 \/ Ncol = 3 ->
   self_hosts (sort_shared IP2Int Ncol order s).2 = self_hosts s /\
   heap (sort_shared IP2Int Ncol order s).2 !! self_hosts s =
     Some (_hosts (sort IP2Int Ncol order (view s)).2)) /\
  (Ncol <> 0 -> Ncol <> 3 ->
   heap (sort_shared IP2Int Ncol order s).2 !! self_hosts s = Some l) /\
  (Ncol = 1 -> (sort_shared IP2Int Ncol order s).1 = Ok tt ->
   self_hosts (sort_shared IP2Int Ncol order s).2 <> self_hosts s /\
   heap (sort_shared IP2Int Ncol order s).2
     !! self_hosts (sort_shared IP2Int Ncol order s).2 =
     Some (_hosts (sort IP2Int Ncol order (view s)).2)) /\
  (forall b, b <> self_hosts s -> is_Some (heap s !! b) ->
     heap (sort_shared IP2Int Ncol order s).2 !! b = heap s !! b).
Proof.
  intros Hl.
  destruct (sort_shared_view IP2Int Ncol order s) as [_ Hview].
  assert (table (sort_shared IP2Int Ncol order s).2 =
          _hosts (sort IP2Int Ncol order (view s)).2) as Htable
    by (rewrite <- Hview; reflexivity).
  assert (fresh (dom (heap s)) <> self_hosts s) as Hfresh.
  { intros Heq. apply (is_fresh (dom (heap s))). rewrite Heq.
    apply elem_of_dom. eauto. }
  destruct (sort_shared_shape IP2Int Ncol order s)
    as [(Hcol & Hself & x & Hheap)
       | [(Hcol & [(Hok & Hself & x & Hheap) | ((e & He) & Hself & Hheap)])
         | (H0 & H1 & H3 & Hself & Hheap)]].
  - (* the address columns *)
    split; [| split; [| split]].
    + intros _. split; [exact Hself |].
      unfold table in Htable. rewrite Hself, Hheap, lookup_insert_eq in Htable.
      rewrite Hheap, lookup_insert_eq. simpl in Htable. rewrite Htable. reflexivity.
    + intros H0 H3. destruct Hcol; contradiction.
    + intros H1. destruct Hcol; lia.
    + intros b Hb _. rewrite Hheap. apply lookup_insert_ne.
      intros Heq. apply Hb. symmetry. exact Heq.
  - (* the OS column, the sort returns *)
    split; [| split; [| split]].
    + intros Hc. destruct Hc; lia.
    + intros _ _. rewrite Hheap, lookup_insert_ne by exact Hfresh. exact Hl.
    + intros _ _. split; [rewrite Hself; exact Hfresh |].
      unfold table in Htable. rewrite Hself, Hheap, lookup_insert_eq in Htable.
      rewrite Hself, Hheap, lookup_insert_eq. simpl in Htable. rewrite Htable.
      reflexivity.
    + intros b Hb Hin. rewrite Hheap. apply lookup_insert_ne.
      intros Heq. apply (is_fresh (dom (heap s))). rewrite Heq.
      apply elem_of_dom. exact Hin.
  - (* the OS column, the sort raises *)
    split; [| split; [| split]].
    + intros Hc. destruct Hc; lia.
    + intros _ _. rewrite Hheap. exact Hl.
    + intros _ Hok. rewrite He in Hok. discriminate.
    + intros b _ _. rewrite Hheap. reflexivity.
  - (* the other columns *)
    split; [| split; [| split]].
    + intros Hc. destruct Hc; contradiction.
    + intros _ _. rewrite Hheap. exact Hl.
    + intros Hc. contradiction.
    + intros b _ _. rewrite Hheap. reflexivity.
Qed.

Lemma sort_shared_aliasing_witness :
  heap (sort_shared IP2Int_dotted_quad 1 AscendingOrder
          {| heap := {[ 0%nat := example_hosts ]}; self_hosts := 0%nat;
             emitted := [] |}).2 !! 0%nat = Some example_hosts.
Proof.
  destruct (sort_shared_aliasing IP2Int_dotted_quad 1 AscendingOrder
              {| heap := {[ 0%nat := example_hosts ]}; self_hosts := 0%nat;
                 emitted := [] |} example_hosts) as (_ & Hkept & _).
  - reflexivity.
  - apply Hkept; discriminate.
Defined.

(** ** The column count *)

(** X16: [columnCount] is the length of the first record (the number of
    entries of a mapping, the number of positions of a tuple or list) and 0
    for the empty table; on a table whose records all have the same length
    it is that length, before and after any sort. *)
Theorem columnCount_uniform (IP2Int : pyval -> result (option Z)) (Ncol : Z)
    (order : SortOrder) (m : model) (n : Z) :
  (forall h rest, _hosts m = h :: rest ->
     columnCount (_hosts m) =
       match h with
       | HDict d => Z.of_nat (size d)
       | HTuple t => Z.of_nat (length t)
       | HList l => Z.of_nat (length l)
       end) /\
  (_hosts m = [] -> columnCount (_hosts m) = 0) /\
  (Forall (fun h => host_len h = n) (_hosts m) ->
     columnCount (_hosts (sort IP2Int Ncol order m).2) = columnCount (_hosts m) /\
     (_hosts m <> [] -> columnCount (_hosts m) = n) /\
     (_hosts m = [] -> columnCount (_hosts (sort IP2Int Ncol order m).2) = 0)).
Proof.
  split; [intros h rest ->; destruct h; reflexivity |].
  split; [intros ->; reflexivity |].
  intros Hall.
  destruct (sort_run IP2Int Ncol order m) as (r & hosts' & logs & -> & Hperm & _).
  cbn [snd _hosts].
  assert (Forall (fun h => host_len h = n) hosts') as Hall'
    by (rewrite Hperm; exact Hall).
  destruct (_hosts m) as [| h hs] eqn:Hm.
  - apply Permutation_nil_r in Hperm. subst hosts'.
    split; [reflexivity |]. split; [congruence | reflexivity].
  - destruct hosts' as [| h' hs'].
    + symmetry in Hperm. apply Permutation_nil_r in Hperm. discriminate.
    + apply Forall_inv in Hall. apply Forall_inv in Hall'. cbn [columnCount].
      split; [congruence |]. split; [intros _; exact Hall | discriminate].
Qed.

Lemma columnCount_uniform_witness :
  columnCount [HTuple [VStr "10.0.0.5"; VInt 1]; HDict ∅] = 2 /\
  columnCount (_hosts (sort IP2Int_dotted_quad 0 DescendingOrder
                         {| _hosts := [HTuple [VStr "10.0.0.5"; VInt 1];
                                       HTuple [VStr "10.0.0.7"; VInt 2]];
                            trace := [] |}).2) =
  columnCount [HTuple [VStr "10.0.0.5"; VInt 1]; HTuple [VStr "10.0.0.7"; VInt 2]].
Proof.
  split.
  - destruct (columnCount_uniform IP2Int_dotted_quad 0 DescendingOrder
                {| _hosts := [HTuple [VStr "10.0.0.5"; VInt 1]; HDict ∅];
                   trace := [] |} 2) as (Hfirst & _).
    exact (Hfirst (HTuple [VStr "10.0.0.5"; VInt 1]) [HDict ∅] eq_refl).
  - destruct (columnCount_uniform IP2Int_dotted_quad 0 DescendingOrder
                {| _hosts := [HTuple [VStr "10.0.0.5"; VInt 1];
                              HTuple [VStr "10.0.0.7"; VInt 2]];
                   trace := [] |} 2) as (_ & _ & Huniform).
    destruct Huniform as (Hsame & _); [| exact Hsame].
    apply Forall_cons. split; [reflexivity |].
    apply Forall_cons. split; [reflexivity | apply Forall_nil; exact I].
Defined.

(** ** The address sort over any [IP2Int] *)

Lemma has_ip_slot_ip_of (h : host) : has_ip_slot h -> ip_of h = Ok (ip_field h).
Proof.
  destruct h as [d | [| v t] | l]; simpl; intros H;
    [reflexivity | congruence | reflexivity | contradiction].
Qed.

Lemma has_ip_slot_readable (hs : list host) :
  Forall has_ip_slot hs -> Forall ip_readable hs.
Proof.
  intros Hall. eapply Forall_impl; [exact Hall |].
  intros h Hh. exists (ip_field h). apply has_ip_slot_ip_of. exact Hh.
Qed.

Lemma ip_value_address_number (IP2Int : pyval -> result (option Z)) (h : host) :
  has_ip_slot h -> ip_value IP2Int h = address_number IP2Int h.
Proof.
  intros Hh. unfold ip_value, address_number.
  rewrite (has_ip_slot_ip_of h Hh).
  destruct (IP2Int (ip_field h)) as [[n |] | e]; reflexivity.
Qed.

Lemma parse_errors_address_errors (IP2Int : pyval -> result (option Z))
    (hs : list host) :
  Forall has_ip_slot hs -> parse_errors IP2Int hs = address_errors IP2Int hs.
Proof.
  unfold parse_errors, address_errors.
  induction 1 as [| h hs Hh _ IH]; [reflexivity |].
  rewrite !fmap_cons. cbn [concat]. rewrite IH. f_equal.
  unfold parse_error. rewrite (has_ip_slot_ip_of h Hh). reflexivity.
Qed.

Lemma StronglySorted_impl_elem {A : Type} (R R' : A -> A -> Prop) (l : list A) :
  (forall a b, a ∈ l -> b ∈ l -> R a b -> R' a b) ->
  StronglySorted R l -> StronglySorted R' l.
Proof.
  intros HR Hs. induction Hs as [| x l Hs IH Hx]; constructor.
  - apply IH. intros a b Ha Hb. apply HR; apply elem_of_cons; right; assumption.
  - apply Forall_forall. intros y Hy. apply HR.
    + apply elem_of_cons. left. reflexivity.
    + apply elem_of_cons. right. exact Hy.
    + rewrite Forall_forall in Hx. apply Hx. exact Hy.
Qed.

Lemma filter_iff_elem {A : Type} (P Q : A -> Prop)
    `{forall x, Decision (P x)} `{forall x, Decision (Q x)} (l : list A) :
  Forall (fun x => P x <-> Q x) l -> filter P l = filter Q l.
Proof.
  induction 1 as [| x l Hx _ IH]; [reflexivity |].
  rewrite !filter_cons, IH.
  destruct (decide (P x)) as [HP | HP]; destruct (decide (Q x)) as [HQ | HQ];
    try reflexivity; exfalso; tauto.
Qed.

(** C4. The claim fails on the code: a record that is neither a mapping nor
    has a position 0 has no ip (field access answers [None] for the empty
    list), yet the address sort does not give it the key 0.  [ip_key] reads
    [host[0]] before it enters its [try] block, so the [IndexError]
    leaves the sort: on the table the constructor takes by default, one
    empty list, the call for column 0 or 3 raises in either direction,
    whatever [IP2Int] is, and so does a call on a table where an empty
    tuple follows a record with an address.  A mapping without an ip, in
    contrast, is given the key 0 and the call returns. *)
Theorem sort_by_ip_raises_on_empty_record (IP2Int : pyval -> result (option Z))
    (order : SortOrder) :
  getSafeHostField [HList []] 0 "ip" = Ok VNone /\
  sort IP2Int 0 order {| _hosts := [HList []]; trace := [] |} =
    (Raise IndexError,
     {| _hosts := [HList []];
        trace := [Emitted layoutAboutToBeChanged [HList []]] |}) /\
  sort IP2Int 3 order {| _hosts := [HList []]; trace := [] |} =
    (Raise IndexError,
     {| _hosts := [HList []];
        trace := [Emitted layoutAboutToBeChanged [HList []]] |}) /\
  (sort IP2Int 0 order
     {| _hosts := [HDict {[ "ip" := VStr "10.0.0.5" ]}; HTuple []];
        trace := [] |}).1 = Raise IndexError /\
  (sort IP2Int 0 order {| _hosts := [HDict ∅]; trace := [] |}).1 = Ok tt /\
  _hosts (sort IP2Int 0 order {| _hosts := [HDict ∅]; trace := [] |}).2 =
    [HDict ∅].
Proof.
  split; [reflexivity |]. split; [reflexivity |]. split; [reflexivity |].
  assert (Forall ip_readable [HDict ∅]) as Hall
    by (repeat constructor; eexists; reflexivity).
  split; [| split].
  - cbv. destruct (IP2Int _) as [[n |] | e]; reflexivity.
  - rewrite (sort_ip_run IP2Int 0 order {| _hosts := [HDict ∅]; trace := [] |}
               (or_introl eq_refl) Hall).
    reflexivity.
  - rewrite (sort_ip_run IP2Int 0 order {| _hosts := [HDict ∅]; trace := [] |}
               (or_introl eq_refl) Hall).
    destruct order; reflexivity.
Qed.

(** X17: on a table whose records are mappings or tuples with a position 0,
    [sort] on column 0 or 3 returns, whatever [IP2Int] is.  Each record is
    ordered by the number [IP2Int] makes of its ip, 0 where [IP2Int]
    answers [None] or raises: the numbers do not decrease along the table
    for the ascending order and do not increase for the descending one.
    The table is a permutation of the one before, the records of equal
    number keep their order, and the log gets one entry for each record
    [IP2Int] raises on, in table order. *)
Theorem sort_by_address_number (IP2Int : pyval -> result (option Z)) (Ncol : Z)
    (order : SortOrder) (m : model) :
  Ncol = 0 \/ Ncol = 3 ->
  Forall has_ip_slot (_hosts m) ->
  exists hosts' : list host,
    sort IP2Int Ncol order m =
      (Ok tt,
       {| _hosts := hosts';
          trace := trace m ++
                   [Emitted layoutAboutToBeChanged (_hosts m)] ++
                   address_errors IP2Int (_hosts m) ++
                   [Emitted layoutChanged hosts'] |}) /\
    Permutation (_hosts m) hosts' /\
    (order = AscendingOrder ->
       StronglySorted
         (fun a b => address_number IP2Int a <= address_number IP2Int b) hosts') /\
    (order = DescendingOrder ->
       StronglySorted
         (fun a b => address_number IP2Int b <= address_number IP2Int a) hosts') /\
    (forall k, filter (fun h => address_number IP2Int h = k) hosts' =
               filter (fun h => address_number IP2Int h = k) (_hosts m)).
Proof.
  intros Hcol Hall.
  set (hosts' := sorted_by (by_key (ip_value IP2Int)) (is_descending order)
                           (_hosts m)).
  assert (Permutation (_hosts m) hosts') as Hperm
    by (symmetry; apply sorted_by_Permutation).
  assert (Forall has_ip_slot hosts') as Hall'
    by (rewrite <- Hperm; exact Hall).
  assert (forall h, h ∈ hosts' -> ip_value IP2Int h = address_number IP2Int h)
    as Hkey.
  { intros h Hh. apply ip_value_address_number.
    rewrite Forall_forall in Hall'. apply Hall'. exact Hh. }
  pose proof (sorted_by_in_order (ip_value IP2Int) (is_descending order) (_hosts m))
    as Hsorted.
  fold hosts' in Hsorted.
  exists hosts'. split; [| split; [| split; [| split]]].
  - rewrite (sort_ip_run IP2Int Ncol order m Hcol (has_ip_slot_readable _ Hall)).
    rewrite (parse_errors_address_errors IP2Int (_hosts m) Hall). reflexivity.
  - exact Hperm.
  - intros ->. revert Hsorted. apply StronglySorted_impl_elem.
    intros a b Ha Hb. unfold in_order. cbn [is_descending].
    rewrite (Hkey a Ha), (Hkey b Hb). auto.
  - intros ->. revert Hsorted. apply StronglySorted_impl_elem.
    intros a b Ha Hb. unfold in_order. cbn [is_descending].
    rewrite (Hkey a Ha), (Hkey b Hb). auto.
  - intros k.
    rewrite (filter_iff_elem (fun h => address_number IP2Int h = k)
                             (fun h => ip_value IP2Int h = k) hosts').
    + rewrite (filter_iff_elem (fun h => address_number IP2Int h = k)
                               (fun h => ip_value IP2Int h = k) (_hosts m)).
      * apply sorted_by_stable.
      * eapply Forall_impl; [exact Hall |]. intros h Hh. cbv beta.
        rewrite (ip_value_address_number IP2Int h Hh). reflexivity.
    + eapply Forall_impl; [exact Hall' |]. intros h Hh. cbv beta.
      rewrite (ip_value_address_number IP2Int h Hh). reflexivity.
Qed.

Lemma sort_by_address_number_witness :
  exists up down : list host,
    _hosts (sort IP2Int_dotted_quad 0 AscendingOrder example_model).2 = up /\
    StronglySorted
      (fun a b => address_number IP2Int_dotted_quad a <=
                  address_number IP2Int_dotted_quad b) up /\
    ip_field <$> up = [VStr "bad-ip"; VStr "10.0.0.2"; VStr "10.0.0.5"] /\
    _hosts (sort IP2Int_dotted_quad 3 DescendingOrder example_model).2 = down /\
    StronglySorted
      (fun a b => address_number IP2Int_dotted_quad b <=
                  address_number IP2Int_dotted_quad a) down /\
    ip_field <$> down = [VStr "10.0.0.5"; VStr "10.0.0.2"; VStr "bad-ip"].
Proof.
  assert (Forall has_ip_slot (_hosts example_model)) as Hall
    by (repeat constructor).
  destruct (sort_by_address_number IP2Int_dotted_quad 0 AscendingOrder
              example_model (or_introl eq_refl) Hall)
    as (up & Hup & _ & Hascending & _).
  destruct (sort_by_address_number IP2Int_dotted_quad 3 DescendingOrder
              example_model (or_intror eq_refl) Hall)
    as (down & Hdown & _ & _ & Hdescending & _).
  assert (_hosts (sort IP2Int_dotted_quad 0 AscendingOrder example_model).2 = up)
    as Eup by (rewrite Hup; reflexivity).
  assert (_hosts (sort IP2Int_dotted_quad 3 DescendingOrder example_model).2 = down)
    as Edown by (rewrite Hdown; reflexivity).
  exists up, down.
  split; [exact Eup |].
  split; [exact (Hascending eq_refl) |].
  split; [rewrite <- Eup; reflexivity |].
  split; [exact Edown |].
  split; [exact (Hdescending eq_refl) |].
  rewrite <- Edown. reflexivity.
Defined.
